(** * AegisAIS: a shallow embedding of the frontend helpers and of the
    detection pipeline (track store, rules, cooldown gate, persistence
    unit, replay driver), with the properties of its specification.

    The frontend functions are translated from the TypeScript sources
    under frontend/src.  The backend (the Python service under
    backend/app) is not part of the sources at hand; its parts are
    modelled from the specification, and every such definition says so
    in its doc comment. *)

From Stdlib Require Import QArith Qround Qabs ZArith Bool Lia Lqa Ascii Qminmax.
From stdpp Require Import base gmap strings list.

Open Scope string_scope.
Open Scope Q_scope.

(* ===================================================================== *)
(** ** Frontend: severity classification (AlertsPanel, VesselsPanel,
    VesselDetails, MapView).  Severities reach the UI as JSON numbers,
    which are finite; they are modelled as rationals. *)
(* ===================================================================== *)

Module AlertsPanel.

(** [function getSeverityLevel(severity: number): string]
    (frontend/src/components/AlertsPanel.tsx) *)
Definition getSeverityLevel (severity : Q) : string :=
  if Qle_bool 70 severity then "high"
  else if Qle_bool 30 severity then "medium"
  else "low".

(** [type Tier = 'integrity' | 'suspicious'] *)
Inductive Tier := integrity | suspicious.

Record Classification := {
  tier : Tier;
  tierLabel : string;
  purpose : string
}.

Definition integrity_label : string := "Integrity violation".
Definition suspicious_label : string := "Suspicious / data‑quality".
Definition generic_purpose : string := "Generic anomaly or data‑quality signal.".

(** [function getAlertClassification(type: string)]: a [switch] over the
    alert type with a [default] branch. *)
Definition getAlertClassification (type : string) : Classification :=
  if String.eqb type "TELEPORT" then
    {| tier := integrity; tierLabel := integrity_label;
       purpose := "Detects physically impossible position jumps (spoofing / gross data errors)." |}
  else if String.eqb type "TURN_RATE" then
    {| tier := integrity; tierLabel := integrity_label;
       purpose := "Detects impossible turn rates that ships cannot physically execute." |}
  else if String.eqb type "POSITION_INVALID" then
    {| tier := integrity; tierLabel := integrity_label;
       purpose := "Catches clearly invalid positions (out of bounds, (0,0), or stuck while SOG says moving)." |}
  else if String.eqb type "HEADING_COG_CONSISTENCY" then
    {| tier := integrity; tierLabel := integrity_label;
       purpose := "Flags wild heading/COG changes at high speed that break basic kinematics." |}
  else if String.eqb type "TELEPORT_T2" then
    {| tier := suspicious; tierLabel := suspicious_label;
       purpose := "Highlights medium‑speed jumps that are unusual but not full hard teleports." |}
  else if String.eqb type "TURN_RATE_T2" then
    {| tier := suspicious; tierLabel := suspicious_label;
       purpose := "Surfaces moderate but unusual turns that may indicate track noise or manoeuvring." |}
  else if String.eqb type "ACCELERATION" then
    {| tier := suspicious; tierLabel := suspicious_label;
       purpose := "Compares reported SOG vs track‑implied speed to find inconsistent / noisy data." |}
  else
    {| tier := suspicious; tierLabel := suspicious_label;
       purpose := generic_purpose |}.

End AlertsPanel.

Module VesselsPanel.

(** [function getSeverityLevel(severity: number): string]
    (components/VesselsPanel.tsx) *)
Definition getSeverityLevel (severity : Q) : string :=
  if Qle_bool 70 severity then "high"
  else if Qle_bool 30 severity then "medium"
  else "low".

End VesselsPanel.

Module VesselDetails.

(** [const getSeverityLevel = (severity: number): string => ...]
    (components/VesselDetails.tsx) *)
Definition getSeverityLevel (severity : Q) : string :=
  if Qle_bool 70 severity then "high"
  else if Qle_bool 30 severity then "medium"
  else "low".

End VesselDetails.

Module MapView.

(** [const getSeverityColor = (severity: number): string => ...]
    (frontend/src/components/MapView.tsx) *)
Definition getSeverityColor (severity : Q) : string :=
  if Qle_bool 70 severity then "#dc2626"
  else if Qle_bool 30 severity then "#f59e0b"
  else "#10b981".

End MapView.

(** The colour of each level in the map (red, amber, green), as the map
    markers use it for the three levels. *)
Definition level_color (level : string) : string :=
  if String.eqb level "high" then "#dc2626"
  else if String.eqb level "medium" then "#f59e0b"
  else "#10b981".

(** The seven alert type names of the closed enum. *)
Definition alert_type_names : list string :=
  ["TELEPORT"; "TELEPORT_T2"; "POSITION_INVALID"; "TURN_RATE";
   "TURN_RATE_T2"; "ACCELERATION"; "HEADING_COG_CONSISTENCY"].

Definition integrity_type_names : list string :=
  ["TELEPORT"; "TURN_RATE"; "POSITION_INVALID"; "HEADING_COG_CONSISTENCY"].

(* ===================================================================== *)
(** ** Backend data model *)
(* ===================================================================== *)

(** Modelled from the spec: the in-flight AIS point of the backend loader
    (§3, AisPoint), missing from the sources.  Timestamps are seconds of
    the source clock; coordinates and kinematics are rationals; absent
    optional fields are [None]. *)
Record AisPoint := {
  mmsi : string;
  timestamp : Z;
  lat : Q;
  lon : Q;
  sog : option Q;
  cog : option Q;
  heading : option Q
}.

(** Modelled from the spec: the closed enum of rule types (§4.4). *)
Inductive RuleType :=
  | TELEPORT | TELEPORT_T2 | POSITION_INVALID | TURN_RATE
  | TURN_RATE_T2 | ACCELERATION | HEADING_COG_CONSISTENCY.

Definition rule_type_str (r : RuleType) : string :=
  match r with
  | TELEPORT => "TELEPORT"
  | TELEPORT_T2 => "TELEPORT_T2"
  | POSITION_INVALID => "POSITION_INVALID"
  | TURN_RATE => "TURN_RATE"
  | TURN_RATE_T2 => "TURN_RATE_T2"
  | ACCELERATION => "ACCELERATION"
  | HEADING_COG_CONSISTENCY => "HEADING_COG_CONSISTENCY"
  end.

(** Modelled from the spec: the operator configuration (§6,
    Configuration) and its defaults. *)
Record Config := {
  teleport_speed_knots_short : Q;
  teleport_speed_knots_medium : Q;
  max_turn_rate_deg_per_sec : Q;
  min_speed_for_turn_check_knots : Q;
  alert_cooldown_sec : Z;
  track_window_size : nat
}.

Definition default_config : Config := {|
  teleport_speed_knots_short := 60;
  teleport_speed_knots_medium := 100;
  max_turn_rate_deg_per_sec := 3;
  min_speed_for_turn_check_knots := 10;
  alert_cooldown_sec := 300;
  track_window_size := 5
|}.

(** A candidate alert, as a rule yields it (§4.4): the rule type, the
    vessel and source timestamp of the triggering point, the severity
    score, the tier or reason label and the evidence metrics. *)
Record Candidate := {
  c_type : RuleType;
  c_mmsi : string;
  c_timestamp : Z;
  c_severity : Q;
  c_label : string;
  c_evidence : list (string * Q)
}.

Definition Qlt_bool (x y : Q) : bool := negb (Qle_bool y x).

(** [clamp(x, lo, hi)] *)
Definition clamp (x lo hi : Q) : Q :=
  if Qle_bool x lo then lo else if Qle_bool hi x then hi else x.

Fixpoint cat_options {A} (l : list (option A)) : list A :=
  match l with
  | [] => []
  | Some x :: l' => x :: cat_options l'
  | None :: l' => cat_options l'
  end.

(* ===================================================================== *)
(** ** Feature functions and the seven rules (§4.3, §4.4).
    The great-circle distance is the haversine formula over reals, which
    has no rational counterpart; it is a parameter of the section. *)
(* ===================================================================== *)

Section Rules.

(** [distance_m(p, q)]: haversine distance on the 6,371,000 m sphere. *)
Variable distance_m : AisPoint -> AisPoint -> Q.

(** Modelled from the spec: [dt_sec(p, q)] (§4.3). *)
Definition dt_sec (p q : AisPoint) : Z := (timestamp q - timestamp p)%Z.

Definition knots_per_mps : Q := 19438445 # 10000000.

(** Modelled from the spec: [implied_speed_kn(p, q)], undefined when
    [dt_sec <= 0] (§4.3). *)
Definition implied_speed_kn (p q : AisPoint) : option Q :=
  let dt := dt_sec p q in
  if (dt <=? 0)%Z then None
  else Some (distance_m p q / inject_Z dt * knots_per_mps).

(** Modelled from the spec: [angle_diff_deg(a, b)], the signed difference
    modulo 360, in [-180, 180) (§4.3). *)
Definition angle_diff_deg (a b : Q) : Q :=
  let x := b - a + 180 in
  x - 360 * inject_Z (Qfloor (x / 360)) - 180.

(** Modelled from the spec: [turn_rate_deg_s(a, b, dt)] (§4.3). *)
Definition turn_rate_deg_s (a b : Q) (dt : Z) : option Q :=
  if (dt <=? 0)%Z then None
  else Some (Qabs (angle_diff_deg a b) / inject_Z dt).

(** Heading 511 means unavailable (§4.4). *)
Definition hdg (p : AisPoint) : option Q :=
  match heading p with
  | Some h => if Qeq_bool h 511 then None else Some h
  | None => None
  end.

Definition mk_candidate (t : RuleType) (curr : AisPoint) (sev : Q)
    (label : string) (ev : list (string * Q)) : Candidate :=
  {| c_type := t; c_mmsi := mmsi curr; c_timestamp := timestamp curr;
     c_severity := sev; c_label := label; c_evidence := ev |}.

Variable cfg : Config.

(** The TELEPORT speed threshold of the time gap: short for
    [dt in (0,120]], medium for [dt in (120,1800]]. *)
Definition teleport_threshold (dt : Z) : option Q :=
  if (0 <? dt)%Z && (dt <=? 120)%Z then Some (teleport_speed_knots_short cfg)
  else if (120 <? dt)%Z && (dt <=? 1800)%Z then Some (teleport_speed_knots_medium cfg)
  else None.

Definition teleport_tier (dt : Z) : string :=
  if (dt <=? 120)%Z then "short" else "medium".

Definition teleport_evidence (prev curr : AisPoint) (v : Q) : list (string * Q) :=
  [("dt_sec", inject_Z (dt_sec prev curr)); ("distance_m", distance_m prev curr);
   ("implied_speed_kn", v); ("p1_lat", lat prev); ("p1_lon", lon prev);
   ("p2_lat", lat curr); ("p2_lon", lon curr)].

(** Modelled from the spec: rule 1, TELEPORT. *)
Definition rule_teleport (prev curr : AisPoint) : option Candidate :=
  let dt := dt_sec prev curr in
  match implied_speed_kn prev curr, teleport_threshold dt with
  | Some v, Some th =>
      if Qle_bool th v then
        Some (mk_candidate TELEPORT curr (clamp (40 + (2#5) * (v - th)) 70 100)
                (teleport_tier dt) (teleport_evidence prev curr v))
      else None
  | _, _ => None
  end.

(** Modelled from the spec: rule 2, TELEPORT_T2. *)
Definition rule_teleport_t2 (prev curr : AisPoint) : option Candidate :=
  match rule_teleport prev curr with
  | Some _ => None
  | None =>
      let dt := dt_sec prev curr in
      match implied_speed_kn prev curr with
      | None => None
      | Some v =>
          let sev := clamp (15 + (3#10) * v) 15 60 in
          match teleport_threshold dt with
          | Some th =>
              if Qle_bool 25 v && Qlt_bool v th then
                Some (mk_candidate TELEPORT_T2 curr sev (teleport_tier dt)
                        (teleport_evidence prev curr v))
              else None
          | None =>
              if (1800 <? dt)%Z && Qlt_bool (20 * inject_Z dt) (distance_m prev curr) then
                Some (mk_candidate TELEPORT_T2 curr sev "long_gap"
                        (teleport_evidence prev curr v))
              else None
          end
      end
  end.

(** Modelled from the spec: rule 3, POSITION_INVALID.  The spec gives
    75 for out-of-bounds, 70 for a stuck position and the range 70-80
    for the rule; the null-island case is scored 75. *)
Definition rule_position_invalid (prev : option AisPoint) (curr : AisPoint)
    : option Candidate :=
  let ev := [("lat", lat curr); ("lon", lon curr)] in
  if negb (Qle_bool (-90) (lat curr) && Qle_bool (lat curr) 90
           && Qle_bool (-180) (lon curr) && Qle_bool (lon curr) 180) then
    Some (mk_candidate POSITION_INVALID curr 75 "out_of_bounds" ev)
  else if Qlt_bool (Qabs (lat curr)) (1#1000) && Qlt_bool (Qabs (lon curr)) (1#1000) then
    Some (mk_candidate POSITION_INVALID curr 75 "null_island" ev)
  else
    match prev with
    | Some p =>
        match sog p with
        | Some s =>
            if Qlt_bool (distance_m p curr) 1 && Qle_bool 1 s
               && (60 <=? dt_sec p curr)%Z then
              Some (mk_candidate POSITION_INVALID curr 70 "stuck" ev)
            else None
        | None => None
        end
    | None => None
    end.

(** The angle channel of rules 4, 5 and 7: heading when both points have
    one, else course over ground when both have one. *)
Definition angle_pair (prev curr : AisPoint) : option (Q * Q * string) :=
  match hdg prev, hdg curr with
  | Some a, Some b => Some (a, b, "heading")
  | _, _ =>
      match cog prev, cog curr with
      | Some a, Some b => Some (a, b, "cog")
      | _, _ => None
      end
  end.

(** [speed_kn]: the reported speed of [curr], else the implied speed. *)
Definition speed_kn (prev curr : AisPoint) : option Q :=
  match sog curr with
  | Some s => Some s
  | None => implied_speed_kn prev curr
  end.

(** Modelled from the spec: rule 4, TURN_RATE. *)
Definition rule_turn_rate (prev curr : AisPoint) : option Candidate :=
  let dt := dt_sec prev curr in
  if (0 <? dt)%Z && (dt <=? 120)%Z then
    match angle_pair prev curr, speed_kn prev curr with
    | Some (a, b, ty), Some s =>
        let tr := Qabs (angle_diff_deg a b) / inject_Z dt in
        if Qle_bool (min_speed_for_turn_check_knots cfg) s
           && Qle_bool (max_turn_rate_deg_per_sec cfg) tr then
          Some (mk_candidate TURN_RATE curr
                  (clamp (50 + 10 * (tr - max_turn_rate_deg_per_sec cfg)) 70 95)
                  "normal" [("turn_rate_deg_s", tr); ("speed_kn", s)])
        else None
    | _, _ => None
    end
  else None.

(** Modelled from the spec: rule 5, TURN_RATE_T2. *)
Definition rule_turn_rate_t2 (prev curr : AisPoint) : option Candidate :=
  match rule_turn_rate prev curr with
  | Some _ => None
  | None =>
      let dt := dt_sec prev curr in
      if (0 <? dt)%Z then
        match angle_pair prev curr, speed_kn prev curr with
        | Some (a, b, ty), Some s =>
            let tr := Qabs (angle_diff_deg a b) / inject_Z dt in
            if Qle_bool 1 tr && Qle_bool 5 s then
              Some (mk_candidate TURN_RATE_T2 curr (clamp (25 + 10 * tr) 25 55)
                      (if Qlt_bool s (min_speed_for_turn_check_knots cfg)
                       then "low_speed" else "normal")
                      [("turn_rate_deg_s", tr); ("speed_kn", s)])
            else None
        | _, _ => None
        end
      else None
  end.

(** Modelled from the spec: rule 6, ACCELERATION. *)
Definition rule_acceleration (prev curr : AisPoint) : option Candidate :=
  let dt := dt_sec prev curr in
  if (1 <? dt)%Z && (dt <=? 300)%Z then
    match sog prev, sog curr, implied_speed_kn prev curr with
    | Some sp, Some sc, Some v =>
        let diff := Qabs (sc - v) in
        let accel := Qabs (sc - sp) / inject_Z dt in
        if Qle_bool 15 diff || Qle_bool 1 accel then
          Some (mk_candidate ACCELERATION curr (clamp (20 + diff) 25 85) ""
                  [("difference_kn", diff); ("implied_speed_kn", v);
                   ("sog_reported", sc); ("accel_knots_per_sec", accel)])
        else None
    | _, _, _ => None
    end
  else None.

(** Modelled from the spec: rule 7, HEADING_COG_CONSISTENCY. *)
Definition rule_heading_cog (prev curr : AisPoint) : option Candidate :=
  let dt := dt_sec prev curr in
  if (0 <? dt)%Z then
    match hdg curr, cog curr, speed_kn prev curr, angle_pair prev curr with
    | Some h, Some c, Some s, Some (a, b, ty) =>
        let d := Qabs (angle_diff_deg h c) in
        let tr := Qabs (angle_diff_deg a b) / inject_Z dt in
        if Qle_bool 10 s && Qle_bool 90 d && Qle_bool 2 tr then
          Some (mk_candidate HEADING_COG_CONSISTENCY curr (clamp (60 + (1#5) * d) 70 85)
                  ty [("angle_change_deg", d); ("turn_rate_deg_s", tr); ("speed_kn", s)])
        else None
    | _, _, _, _ => None
    end
  else None.

(** Modelled from the spec: the rule engine (§4.4), rules in their fixed
    order; without a previous point only rule 3 is evaluated. *)
Definition evaluate_rules (prev : option AisPoint) (curr : AisPoint) : list Candidate :=
  match prev with
  | None => cat_options [rule_position_invalid None curr]
  | Some p =>
      cat_options [rule_teleport p curr; rule_teleport_t2 p curr;
                   rule_position_invalid (Some p) curr; rule_turn_rate p curr;
                   rule_turn_rate_t2 p curr; rule_acceleration p curr;
                   rule_heading_cog p curr]
  end.

End Rules.

(* ===================================================================== *)
(** ** Track store (§4.2) *)
(* ===================================================================== *)

Abbreviation TrackStore := (gmap string (list AisPoint)).

(** Modelled from the spec: the bounded FIFO ring of one vessel; when the
    ring is full its oldest point is dropped before the append. *)
Definition ring_push (cap : nat) (ring : list AisPoint) (p : AisPoint) : list AisPoint :=
  if (length ring <? cap)%nat then ring ++ [p] else tail ring ++ [p].

(** Modelled from the spec: [push(point)] appends the point to its
    vessel's ring and returns the ring after insertion, oldest first. *)
Definition push (cap : nat) (store : TrackStore) (p : AisPoint)
    : TrackStore * list AisPoint :=
  let ring := default [] (store !! mmsi p) in
  let r := ring_push cap ring p in
  (<[mmsi p := r]> store, r).

(** Modelled from the spec: [previous()], the point before the last one
    of the returned window. *)
Definition previous (window : list AisPoint) : option AisPoint :=
  match rev window with
  | _ :: q :: _ => Some q
  | _ => None
  end.

Fixpoint push_all (cap : nat) (store : TrackStore) (ps : list AisPoint) : TrackStore :=
  match ps with
  | [] => store
  | p :: ps' => push_all cap (push cap store p).1 ps'
  end.

(** The [n] most recent elements of a list. *)
Definition lastn {A} (n : nat) (l : list A) : list A := drop (length l - n) l.

Definition points_of (v : string) (ps : list AisPoint) : list AisPoint :=
  filter (fun p => mmsi p = v) ps.

(* ===================================================================== *)
(** ** Persisted state (§3, §6) *)
(* ===================================================================== *)

(** Modelled from the spec: alert review status, initial [status_new]. *)
Inductive AlertStatus := status_new | reviewed | resolved | false_positive.

Definition alert_status_str (s : AlertStatus) : string :=
  match s with
  | status_new => "new"
  | reviewed => "reviewed"
  | resolved => "resolved"
  | false_positive => "false_positive"
  end.

(** Modelled from the spec: the [alerts] row. *)
Record Alert := {
  alert_id : nat;
  a_timestamp : Z;
  a_mmsi : string;
  a_type : RuleType;
  a_severity : Z;
  a_label : string;
  a_evidence : list (string * Q);
  a_status : AlertStatus;
  a_notes : option string
}.

(** Modelled from the spec: the [vessels_latest] row. *)
Record VesselLatest := {
  vl_point : AisPoint;
  last_alert_severity : Z
}.

(** Modelled from the spec: the [vessel_positions] row. *)
Record VesselPosition := {
  pos_id : nat;
  pos_point : AisPoint
}.

(** Modelled from the spec: the database, with the [alert_cooldowns]
    table keyed by (mmsi, rule type). *)
Record DB := {
  vessels_latest : gmap string VesselLatest;
  vessel_positions : list VesselPosition;
  alerts : list Alert;
  alert_cooldowns : gmap (string * string) Z
}.

Definition empty_db : DB :=
  {| vessels_latest := ∅; vessel_positions := []; alerts := []; alert_cooldowns := ∅ |}.

Definition cooldown_key (c : Candidate) : string * string :=
  (c_mmsi c, rule_type_str (c_type c)).

(** The stored severity is the integer part of the rule's score. *)
Definition alert_of_candidate (id : nat) (c : Candidate) : Alert :=
  {| alert_id := id; a_timestamp := c_timestamp c; a_mmsi := c_mmsi c;
     a_type := c_type c; a_severity := Qfloor (c_severity c);
     a_label := c_label c; a_evidence := c_evidence c;
     a_status := status_new; a_notes := None |}.

(** Modelled from the spec: the single writes of a persistence unit
    (§4.6). *)
Inductive Write :=
  | UpsertLatest (p : AisPoint)
  | InsertPosition (p : AisPoint)
  | InsertAlert (c : Candidate)
  | UpsertCooldown (k : string * string) (t : Z)
  | UpdateSeverity (m : string) (s : Z).

(** Modelled from the spec: the effect of one write.  A point older than
    the stored latest state is appended to the positions but does not
    replace the latest state (the default of the ordering knob, §9). *)
Definition apply_write (w : Write) (db : DB) : DB :=
  match w with
  | UpsertLatest p =>
      let old := vessels_latest db !! mmsi p in
      match old with
      | Some vl =>
          if (timestamp p <? timestamp (vl_point vl))%Z then db
          else {| vessels_latest :=
                    <[mmsi p := {| vl_point := p; last_alert_severity := last_alert_severity vl |}]>
                    (vessels_latest db);
                  vessel_positions := vessel_positions db; alerts := alerts db;
                  alert_cooldowns := alert_cooldowns db |}
      | None =>
          {| vessels_latest :=
               <[mmsi p := {| vl_point := p; last_alert_severity := 0 |}]> (vessels_latest db);
             vessel_positions := vessel_positions db; alerts := alerts db;
             alert_cooldowns := alert_cooldowns db |}
      end
  | InsertPosition p =>
      {| vessels_latest := vessels_latest db;
         vessel_positions := vessel_positions db
                               ++ [{| pos_id := length (vessel_positions db); pos_point := p |}];
         alerts := alerts db; alert_cooldowns := alert_cooldowns db |}
  | InsertAlert c =>
      {| vessels_latest := vessels_latest db; vessel_positions := vessel_positions db;
         alerts := alerts db ++ [alert_of_candidate (length (alerts db)) c];
         alert_cooldowns := alert_cooldowns db |}
  | UpsertCooldown k t =>
      {| vessels_latest := vessels_latest db; vessel_positions := vessel_positions db;
         alerts := alerts db; alert_cooldowns := <[k := t]> (alert_cooldowns db) |}
  | UpdateSeverity m s =>
      {| vessels_latest :=
           alter (fun vl => {| vl_point := vl_point vl;
                               last_alert_severity := Z.max (last_alert_severity vl) s |})
                 m (vessels_latest db);
         vessel_positions := vessel_positions db; alerts := alerts db;
         alert_cooldowns := alert_cooldowns db |}
  end.

(** A transaction: reads and writes on the database, failing as a whole. *)
Definition Tx (A : Type) : Type := DB -> option (A * DB).

Definition tx_ret {A} (a : A) : Tx A := fun db => Some (a, db).

Definition tx_bind {A B} (m : Tx A) (k : A -> Tx B) : Tx B :=
  fun db => match m db with
            | Some (a, db') => k a db'
            | None => None
            end.

Notation "'let*' x ':=' m 'in' k" := (tx_bind m (fun x => k))
  (at level 200, x name, m at level 100, k at level 200).

Definition tx_read : Tx DB := fun db => Some (db, db).

(** The storage may reject any write; [rejects db w] says it rejects [w]
    in state [db]. *)
Definition Rejects : Type := DB -> Write -> bool.

Definition no_failure : Rejects := fun _ _ => false.

Definition exec (rejects : Rejects) (w : Write) : Tx unit :=
  fun db => if rejects db w then None else Some (tt, apply_write w db).

(* ===================================================================== *)
(** ** Cooldown gate, persistence unit and replay (§4.5, §4.6, §4.8) *)
(* ===================================================================== *)

Section Pipeline.

Variable distance_m : AisPoint -> AisPoint -> Q.
Variable cfg : Config.

(** Modelled from the spec: the cooldown gate (§4.5).  A candidate is
    accepted when no row exists for its key or when its source timestamp
    is at least the cooldown interval after the stored one. *)
Definition cooldown_ok (db : DB) (c : Candidate) : bool :=
  match alert_cooldowns db !! cooldown_key c with
  | None => true
  | Some last => (alert_cooldown_sec cfg <=? c_timestamp c - last)%Z
  end.

(** Modelled from the spec: step (c) of the unit: each candidate that
    passes the gate is inserted and its cooldown row upserted. *)
Fixpoint process_candidates (rejects : Rejects) (cs : list Candidate)
    : Tx (list Candidate) :=
  match cs with
  | [] => tx_ret []
  | c :: cs' =>
      let* db := tx_read in
      if cooldown_ok db c then
        let* _ := exec rejects (InsertAlert c) in
        let* _ := exec rejects (UpsertCooldown (cooldown_key c) (c_timestamp c)) in
        let* rest := process_candidates rejects cs' in
        tx_ret (c :: rest)
      else process_candidates rejects cs'
  end.

Definition max_severity (acc : list Candidate) : Z :=
  fold_right (fun c m => Z.max (Qfloor (c_severity c)) m) 0%Z acc.

(** Modelled from the spec: the persistence unit of one point (§4.6). *)
Definition persist_unit (rejects : Rejects) (p : AisPoint) (cs : list Candidate)
    : Tx (list Candidate) :=
  let* _ := exec rejects (UpsertLatest p) in
  let* _ := exec rejects (InsertPosition p) in
  let* acc := process_candidates rejects cs in
  match acc with
  | [] => tx_ret acc
  | _ :: _ =>
      let* _ := exec rejects (UpdateSeverity (mmsi p) (max_severity acc)) in
      tx_ret acc
  end.

Inductive Outcome := Persisted (accepted : list Candidate) | Skipped.

(** Modelled from the spec: the unit runs in its own transaction; on any
    failure it is rolled back and the point is reported as skipped. *)
Definition ingest_point (rejects : Rejects) (db : DB) (p : AisPoint) (cs : list Candidate)
    : DB * Outcome :=
  match persist_unit rejects p cs db with
  | Some (acc, db') => (db', Persisted acc)
  | None => (db, Skipped)
  end.

(** Modelled from the spec: the state of one replay session. *)
Record Session := {
  track : TrackStore;
  s_processed : nat;
  s_skipped : nat;
  s_last_ts : option Z
}.

Definition new_session : Session :=
  {| track := ∅; s_processed := 0; s_skipped := 0; s_last_ts := None |}.

(** Modelled from the spec: one iteration of the driver: push, evaluate
    the rules against the previous point, persist, count. *)
Definition replay_step (rejects : Rejects) (st : DB * Session) (p : AisPoint)
    : DB * Session :=
  let '(db, s) := st in
  let '(track', window) := push (track_window_size cfg) (track s) p in
  let cs := evaluate_rules distance_m cfg (previous window) p in
  let '(db', out) := ingest_point rejects db p cs in
  (db', {| track := track';
           s_processed := S (s_processed s);
           s_skipped := match out with Skipped => S (s_skipped s) | Persisted _ => s_skipped s end;
           s_last_ts := Some (timestamp p) |}).

Definition replay (rejects : Rejects) (db : DB) (s : Session) (ps : list AisPoint)
    : DB * Session :=
  fold_left (replay_step rejects) ps (db, s).

(** The same loop where each point is either fully committed ([true]) or
    left out ([false]). *)
Definition replay_step_sel (st : DB * Session) (pok : AisPoint * bool) : DB * Session :=
  let '(db, s) := st in
  let '(p, ok) := pok in
  let '(track', window) := push (track_window_size cfg) (track s) p in
  let cs := evaluate_rules distance_m cfg (previous window) p in
  let db' := if ok then (ingest_point no_failure db p cs).1 else db in
  (db', {| track := track';
           s_processed := S (s_processed s);
           s_skipped := if ok then s_skipped s else S (s_skipped s);
           s_last_ts := Some (timestamp p) |}).

Definition replay_sel (db : DB) (s : Session) (ps : list AisPoint) (oks : list bool)
    : DB * Session :=
  fold_left replay_step_sel (zip ps oks) (db, s).

End Pipeline.

(* ===================================================================== *)
(** ** Control surface: start, stop, status, pacing (§4.8, §6) *)
(* ===================================================================== *)

(** [interface ReplayStatus] (frontend/src/types, frontend/src/api/client.ts):
    [running: boolean; processed: number; last_timestamp: string | null;
     stop_requested: boolean]. *)
Record ReplayStatus := {
  running : bool;
  processed : nat;
  last_timestamp : option Z;
  stop_requested : bool
}.

(** A JSON value of the status response; a timestamp travels as its
    ISO-8601 string. *)
Inductive JsonValue :=
  | JBool (b : bool)
  | JNumber (n : nat)
  | JTimestamp (t : Z)
  | JNull.

(** The JSON object of [GET /v1/replay/status] (API_DOCUMENTATION.md,
    read by [getReplayStatus]), keys in order. *)
Definition replay_status_json (s : ReplayStatus) : list (string * JsonValue) :=
  [("running", JBool (running s));
   ("processed", JNumber (processed s));
   ("last_timestamp", match last_timestamp s with Some t => JTimestamp t | None => JNull end);
   ("stop_requested", JBool (stop_requested s))].

Definition json_keys (o : list (string * JsonValue)) : list string := map fst o.

(** Modelled from the spec: the driver's phases (§4.8). *)
Inductive Phase := Idle | Running | Stopping.

(** Modelled from the spec: the replay driver state. *)
Record Driver := {
  phase : Phase;
  d_session : Session;
  d_stop_requested : bool
}.

Definition initial_driver : Driver :=
  {| phase := Idle; d_session := new_session; d_stop_requested := false |}.

(** A replay speed-up: a finite factor, or infinity. *)
Inductive Speedup := Finite (s : Q) | Infinite.

Inductive StartError := BadSpeedup | BadBatchSize | AlreadyRunning | BadPath.

Inductive StartResult := Started | StartRejected (e : StartError).

(** Modelled from the spec: [speedup >= 0.1] (API_DOCUMENTATION.md). *)
Definition speedup_valid (sp : Speedup) : bool :=
  match sp with
  | Finite s => Qle_bool (1#10) s
  | Infinite => true
  end.

(** Modelled from the spec: [start_replay]; parameters are validated
    first, then the phase, then the file ([path_ok]: exists and decodes,
    checked in Starting). *)
Definition start_replay (d : Driver) (path_ok : bool) (sp : Speedup)
    (use_streaming : bool) (batch_size : Z) : StartResult * Driver :=
  if negb (speedup_valid sp) then (StartRejected BadSpeedup, d)
  else if negb ((1 <=? batch_size)%Z && (batch_size <=? 10000)%Z) then
    (StartRejected BadBatchSize, d)
  else match phase d with
       | Idle =>
           if path_ok then
             (Started, {| phase := Running; d_session := new_session;
                          d_stop_requested := false |})
           else (StartRejected BadPath, d)
       | _ => (StartRejected AlreadyRunning, d)
       end.

(** Modelled from the spec: the pacing delay of a point, [(ts - ref_ts) /
    speedup - (now - ref_wall)]; the driver sleeps when it is positive. *)
Definition pacing_delay (sp : Speedup) (ts ref_ts : Z) (now ref_wall : Q) : Q :=
  match sp with
  | Finite s => inject_Z (ts - ref_ts) / s - (now - ref_wall)
  | Infinite => 0 - (now - ref_wall)
  end.

Definition pacing_sleeps (sp : Speedup) (ts ref_ts : Z) (now ref_wall : Q) : bool :=
  Qlt_bool 0 (pacing_delay sp ts ref_ts now ref_wall).

(** Modelled from the spec: [replay_status]. *)
Definition replay_status (d : Driver) : ReplayStatus :=
  {| running := match phase d with Idle => false | _ => true end;
     processed := s_processed (d_session d);
     last_timestamp := s_last_ts (d_session d);
     stop_requested := d_stop_requested d |}.

Section Driving.

Variable distance_m : AisPoint -> AisPoint -> Q.
Variable cfg : Config.

(** Modelled from the spec: one point of a running session; nothing is
    pulled once stop was requested. *)
Definition driver_step (rejects : Rejects) (st : DB * Driver) (p : AisPoint) : DB * Driver :=
  let '(db, d) := st in
  match phase d with
  | Running =>
      if d_stop_requested d then (db, d)
      else
        let '(db', s') := replay_step distance_m cfg rejects (db, d_session d) p in
        (db', {| phase := Running; d_session := s'; d_stop_requested := false |})
  | _ => (db, d)
  end.

(** End of a session: back to Idle, the track store discarded, the
    counters of the last session kept. *)
Definition finish_session (d : Driver) : Driver :=
  {| phase := Idle;
     d_session := {| track := ∅; s_processed := s_processed (d_session d);
                     s_skipped := s_skipped (d_session d);
                     s_last_ts := s_last_ts (d_session d) |};
     d_stop_requested := d_stop_requested d |}.

Definition run_session (rejects : Rejects) (db : DB) (d : Driver) (ps : list AisPoint)
    : DB * Driver :=
  let '(db', d') := fold_left (driver_step rejects) ps (db, d) in
  (db', finish_session d').

End Driving.

(* ===================================================================== *)
(** ** Alert review (§3, §6 update_alert_status) *)
(* ===================================================================== *)

(** Modelled from the spec: the accepted status strings. *)
Definition parse_status (s : string) : option AlertStatus :=
  if String.eqb s "new" then Some status_new
  else if String.eqb s "reviewed" then Some reviewed
  else if String.eqb s "resolved" then Some resolved
  else if String.eqb s "false_positive" then Some false_positive
  else None.

Inductive UpdateError := InvalidStatus | AlertNotFound.

(** Notes are replaced when given and kept when omitted. *)
Definition set_review (st : AlertStatus) (notes : option string) (a : Alert) : Alert :=
  {| alert_id := alert_id a; a_timestamp := a_timestamp a; a_mmsi := a_mmsi a;
     a_type := a_type a; a_severity := a_severity a; a_label := a_label a;
     a_evidence := a_evidence a; a_status := st;
     a_notes := match notes with Some n => Some n | None => a_notes a end |}.

(** Modelled from the spec: [update_alert_status(alert_id, status, notes?)]
    ([PATCH /v1/alerts/{id}/status], called by [updateAlertStatus]). *)
Definition update_alert_status (db : DB) (id : nat) (status : string) (notes : option string)
    : (UpdateError + Alert) * DB :=
  match parse_status status with
  | None => (inl InvalidStatus, db)
  | Some st =>
      match List.find (fun a => Nat.eqb (alert_id a) id) (alerts db) with
      | None => (inl AlertNotFound, db)
      | Some a =>
          (inr (set_review st notes a),
           {| vessels_latest := vessels_latest db; vessel_positions := vessel_positions db;
              alerts := map (fun a => if Nat.eqb (alert_id a) id then set_review st notes a else a)
                            (alerts db);
              alert_cooldowns := alert_cooldowns db |})
      end
  end.

(* ===================================================================== *)
(** ** Invariants of the persisted state *)
(* ===================================================================== *)

(** Scenario S1 of the spec: two rows of vessel 200000001, 60 s apart
    (2025-01-01T00:00:00 and 00:01:00), from (40, -70) to (40, -68). *)
Definition s1_p1 : AisPoint :=
  {| mmsi := "200000001"; timestamp := 1735689600; lat := 40; lon := -70;
     sog := Some 12; cog := Some 90; heading := Some 90 |}.

Definition s1_p2 : AisPoint :=
  {| mmsi := "200000001"; timestamp := 1735689660; lat := 40; lon := -68;
     sog := Some 12; cog := Some 90; heading := Some 90 |}.

(** A candidate severity lies in [0, 100]. *)
Definition SevInRange (c : Candidate) : Prop := 0 <= c_severity c <= 100.

(** Every stored alert has one of the seven rule types and an integer
    severity in [0, 100]. *)
Definition AlertsWellFormed (db : DB) : Prop :=
  forall a, In a (alerts db) ->
    In (rule_type_str (a_type a)) alert_type_names /\ (0 <= a_severity a <= 100)%Z.

(** [a'] is [a] with only its review status set to [st] and its notes
    set to [notes] when given. *)
Definition ReviewUpdate (st : AlertStatus) (notes : option string) (a a' : Alert) : Prop :=
  alert_id a' = alert_id a /\ a_timestamp a' = a_timestamp a /\ a_mmsi a' = a_mmsi a /\
  a_type a' = a_type a /\ a_severity a' = a_severity a /\ a_label a' = a_label a /\
  a_evidence a' = a_evidence a /\ a_status a' = st /\
  a_notes a' = match notes with Some n => Some n | None => a_notes a end.

(** Every alert has its cooldown row, at or after its timestamp, and two
    alerts of one (vessel, rule) key are at least [cd] seconds apart. *)
Definition CooldownInv (cd : Z) (db : DB) : Prop :=
  (forall a, In a (alerts db) ->
     exists t : Z, alert_cooldowns db !! (a_mmsi a, rule_type_str (a_type a)) = Some t /\
                   (a_timestamp a <= t)%Z) /\
  (forall a1 a2, In a1 (alerts db) -> In a2 (alerts db) ->
     a_mmsi a1 = a_mmsi a2 -> a_type a1 = a_type a2 ->
     (a_timestamp a1 < a_timestamp a2)%Z ->
     (cd <= a_timestamp a2 - a_timestamp a1)%Z).

(** The alerts of [db'] are those of [db] followed by alerts created from
    candidates of [cs]. *)
Definition AppendedFrom (cs : list Candidate) (db db' : DB) : Prop :=
  exists l, alerts db' = (alerts db ++ l)%list /\
    forall a, In a l -> exists n c, In c cs /\ a = alert_of_candidate n c.

(* ===================================================================== *)
(** ** Frontend: query strings, file checks, views *)
(* ===================================================================== *)

(** Strings are the UTF-8 bytes of the JavaScript strings; [Number]
    values are rationals, and [Number.prototype.toString] is a parameter
    [num_to_string] of the definitions that print numbers. *)

Module Url.

(** The bytes the [application/x-www-form-urlencoded] serializer leaves
    as they are: ASCII letters and digits and [*], [-], [.], [_]. *)
Definition is_unreserved (c : ascii) : bool :=
  let n := nat_of_ascii c in
  ((48 <=? n) && (n <=? 57))%nat || ((65 <=? n) && (n <=? 90))%nat ||
  ((97 <=? n) && (n <=? 122))%nat ||
  (n =? 42)%nat || (n =? 45)%nat || (n =? 46)%nat || (n =? 95)%nat.

(** An upper-case hexadecimal digit. *)
Definition hex_digit (n : nat) : ascii :=
  ascii_of_nat (if (n <? 10)%nat then 48 + n else 55 + n)%nat.

Definition percent_encode_byte (c : ascii) : string :=
  String "%" (String (hex_digit (nat_of_ascii c / 16))
                (String (hex_digit (nat_of_ascii c mod 16)) EmptyString)).

(** The form-urlencoded byte serializer of [URLSearchParams.toString]
    over the UTF-8 bytes of a string: a space becomes [+], unreserved
    bytes stay, every other byte is percent-encoded. *)
Fixpoint urlencode (s : string) : string :=
  match s with
  | EmptyString => EmptyString
  | String c s' =>
      (if Ascii.eqb c " " then "+"
       else if is_unreserved c then String c EmptyString
       else percent_encode_byte c) ++ urlencode s'
  end.

(** [URLSearchParams.toString]: [name=value] pairs joined by [&]. *)
Definition serialize (ps : list (string * string)) : string :=
  String.concat "&" (map (fun '(k, v) => urlencode k ++ "=" ++ urlencode v) ps).

(** The value of a hexadecimal digit. *)
Definition hex_val (c : ascii) : option nat :=
  let n := nat_of_ascii c in
  if ((48 <=? n) && (n <=? 57))%nat then Some (n - 48)%nat
  else if ((65 <=? n) && (n <=? 70))%nat then Some (n - 55)%nat
  else if ((97 <=? n) && (n <=? 102))%nat then Some (n - 87)%nat
  else None.

(** The form-urlencoded parser's decoding of a name or value: [+] is a
    space, [%XY] with two hex digits is the byte [XY], anything else
    stays. *)
Fixpoint form_decode (s : string) : string :=
  match s with
  | EmptyString => EmptyString
  | String c rest =>
      if Ascii.eqb c "+" then String " " (form_decode rest)
      else if Ascii.eqb c "%" then
        match rest with
        | String h (String l rest') =>
            match hex_val h, hex_val l with
            | Some a, Some b => String (ascii_of_nat (16 * a + b)) (form_decode rest')
            | _, _ => String c (form_decode rest)
            end
        | _ => String c (form_decode rest)
        end
      else String c (form_decode rest)
  end.

(** [s.split(sep)] for a one-byte separator. *)
Fixpoint split_on (sep : ascii) (s : string) : list string :=
  match s with
  | EmptyString => [EmptyString]
  | String c r =>
      if Ascii.eqb c sep then EmptyString :: split_on sep r
      else match split_on sep r with
           | x :: xs => String c x :: xs
           | [] => [String c EmptyString]
           end
  end.

(** The text before the first [sep] and, if there is one, the text after. *)
Fixpoint break_at (sep : ascii) (s : string) : string * option string :=
  match s with
  | EmptyString => (EmptyString, None)
  | String c r =>
      if Ascii.eqb c sep then (EmptyString, Some r)
      else let '(a, b) := break_at sep r in (String c a, b)
  end.

(** The form-urlencoded parser (what the server applies to a query):
    split on [&], drop empty sequences, split each at its first [=],
    decode name and value. *)
Definition parse_query (q : string) : list (string * string) :=
  map (fun sq => let '(n, v) := break_at "=" sq in
                 (form_decode n, form_decode (default EmptyString v)))
      (List.filter (fun sq => negb (String.eqb sq EmptyString)) (split_on "&" q)).

End Url.

Import Url.

Fixpoint has_byte (b : ascii) (s : string) : bool :=
  match s with
  | EmptyString => false
  | String c r => Ascii.eqb c b || has_byte b r
  end.

Definition enc_byte (c : ascii) : string :=
  if Ascii.eqb c " " then "+"
  else if is_unreserved c then String c EmptyString
  else percent_encode_byte c.


Module Client.
Section Client.
(** [Number.prototype.toString]; its digit rendering is not modelled. *)
Variable num_to_string : Q -> string.

(** A property value of the plain objects passed as query parameters. *)
Inductive JsVal := JsUndefined | JsNull | JsString (s : string) | JsNumber (q : Q) | JsBool (b : bool).

(** [Object.entries(params).forEach(...)] of getAlerts, getAlertStats and
    exportAlerts: entries whose value is neither undefined nor null are
    appended with [value.toString()]. *)
Definition query_entries (params : list (string * JsVal)) : list (string * string) :=
  flat_map (fun '(k, v) =>
    match v with
    | JsUndefined | JsNull => []
    | JsString s => [(k, s)]
    | JsNumber q => [(k, num_to_string q)]
    | JsBool b => [(k, if b then "true" else "false")]
    end) params.

(** [query ? `?${query}` : ''] *)
Definition query_suffix (query : string) : string :=
  if String.eqb query "" then "" else "?" ++ query.

Definition getAlerts_endpoint (params : list (string * JsVal)) : string :=
  "/v1/alerts" ++ query_suffix (serialize (query_entries params)).



Definition bool_to_string (b : bool) : string := if b then "true" else "false".

Definition startReplay_params (path : string) (speedup : Q) (useStreaming : bool)
    (batchSize : Q) : list (string * string) :=
  [("path", path); ("speedup", num_to_string speedup);
   ("use_streaming", bool_to_string useStreaming); ("batch_size", num_to_string batchSize)].

Definition startReplay_endpoint (path : string) (speedup : Q) (useStreaming : bool)
    (batchSize : Q) : string :=
  "/v1/replay/start?" ++ serialize (startReplay_params path speedup useStreaming batchSize).

(** [if (s) ...] on an optional string: undefined and the empty string are falsy. *)
Definition truthy_str (s : option string) : option string :=
  match s with Some x => if String.eqb x "" then None else Some x | None => None end.

Definition getVesselTrack_params (startTime endTime : option string) (limit : Q)
    : list (string * string) :=
  [("limit", num_to_string limit)] ++
  match truthy_str startTime with Some s => [("start_time", s)] | None => [] end ++
  match truthy_str endTime with Some s => [("end_time", s)] | None => [] end.

Definition getVesselTrack_endpoint (mmsi : string) (startTime endTime : option string)
    (limit : Q) : string :=
  "/v1/vessels/" ++ mmsi ++ "/track?" ++ serialize (getVesselTrack_params startTime endTime limit).

(** AlertsPanel.loadAlerts: the params object handed to getAlerts. *)
Definition loadAlerts_params (filterType : string) (minSeverity : Q) : list (string * JsVal) :=
  [("limit", JsNumber 100)] ++
  (if String.eqb filterType "" then [] else [("alert_type", JsString filterType)]) ++
  (if Qlt_le_dec 0 minSeverity then [("min_severity", JsNumber minSeverity)] else []).


End Client.
End Client.
Import Client.

(** [String.prototype.toLowerCase] on ASCII letters; the case mappings
    of non-ASCII characters are not modelled. *)
Definition ascii_lower (c : ascii) : ascii :=
  let n := nat_of_ascii c in
  if ((65 <=? n) && (n <=? 90))%nat then ascii_of_nat (n + 32) else c.

Fixpoint to_lower (s : string) : string :=
  match s with
  | EmptyString => EmptyString
  | String c r => String (ascii_lower c) (to_lower r)
  end.

(** [s.endsWith(suf)]: [suf] is a suffix of [s]. *)
Fixpoint ends_with (s suf : string) : bool :=
  String.eqb s suf || match s with EmptyString => false | String _ r => ends_with r suf end.

(** [s.includes(t)]: [t] occurs in [s]. *)
Fixpoint includes (s t : string) : bool :=
  String.prefix t s || match s with EmptyString => false | String _ r => includes r t end.

Module FileDropZone.
Section FileDropZone.
Variable num_to_string : Q -> string.

Definition default_acceptedTypes : list string := [".csv"; ".dat"; ".zst"].

Definition hasValidExtension (acceptedTypes : list string) (fileName : string) : bool :=
  existsb (fun ext => ends_with fileName ext || ends_with fileName (ext ++ ".zst") ||
                      ends_with fileName ".csv.zst" || ends_with fileName ".dat.zst")
          acceptedTypes.

(** [validateFile]: [None] for a valid file, else the error message. *)
Definition validateFile (acceptedTypes : list string) (maxSizeMB : Q)
    (name : string) (size : Q) : option string :=
  let fileName := to_lower name in
  if negb (hasValidExtension acceptedTypes fileName) then
    Some ("File type not supported. Accepted: " ++ String.concat ", " acceptedTypes)
  else
    let fileSizeMB := size / (1024 * 1024) in
    if Qlt_bool maxSizeMB fileSizeMB then
      Some ("File too large. Maximum size: " ++ num_to_string maxSizeMB ++ "MB")
    else None.

End FileDropZone.
End FileDropZone.

Module VesselsPanelSearch.
(** [vessels.filter(v => !searchMmsi || v.mmsi.includes(searchMmsi))] *)
Definition filteredVessels {V} (mmsi : V -> string) (searchMmsi : string) (vessels : list V)
    : list V :=
  List.filter (fun v => String.eqb searchMmsi "" || includes (mmsi v) searchMmsi) vessels.
End VesselsPanelSearch.
Import FileDropZone VesselsPanelSearch.

Definition is_upper (c : ascii) : bool :=
  let n := nat_of_ascii c in ((65 <=? n) && (n <=? 90))%nat.

Fixpoint has_upper (s : string) : bool :=
  match s with EmptyString => false | String c r => is_upper c || has_upper r end.


Module VesselDetailsView.

(** The fields of an alert of the API that the view reads. *)
Record AlertView := { av_type : string; av_severity : Q }.

(** A property value of the [byType] accumulator object. *)
Inductive PropVal := PNum (n : nat) | PStr (s : string).

(** The properties every plain object inherits from [Object.prototype]. *)
Definition object_prototype_names : list string :=
  ["constructor"; "__defineGetter__"; "__defineSetter__"; "hasOwnProperty";
   "__lookupGetter__"; "__lookupSetter__"; "isPrototypeOf"; "propertyIsEnumerable";
   "toString"; "valueOf"; "__proto__"; "toLocaleString"].

Section ByType.
(** [String(Object.prototype[k])]: the source text of an inherited method,
    or ["[object Object]"] for [__proto__]. *)
Variable inherited_text : string -> string.

(** [acc[a.type] = (acc[a.type] || 0) + 1]; the own properties of [acc]
    are a map.  An inherited value is a function or object, truthy, and
    [+ 1] concatenates.  Assigning a primitive to [__proto__] goes to
    the [Object.prototype.__proto__] setter, which ignores it. *)
Definition byType_step (acc : gmap string PropVal) (a : AlertView) : gmap string PropVal :=
  let k := av_type a in
  let v := match acc !! k with
           | Some (PNum 0) => PNum 1
           | Some (PNum n) => PNum (n + 1)
           | Some (PStr "") => PNum 1
           | Some (PStr s) => PStr (s ++ "1")
           | None => if decide (k ∈ object_prototype_names)
                     then PStr (inherited_text k ++ "1") else PNum 1
           end in
  if String.eqb k "__proto__" then acc else <[k := v]> acc.

Definition byType (alerts : list AlertView) : gmap string PropVal :=
  fold_left byType_step alerts ∅.
End ByType.

Record AlertStats := {
  st_total : nat; st_high : nat; st_medium : nat; st_low : nat;
  st_byType : gmap string PropVal
}.

Definition alertStats (inherited_text : string -> string) (alerts : list AlertView) : AlertStats :=
  {| st_total := length alerts;
     st_high := length (List.filter (fun a => Qle_bool 70 (av_severity a)) alerts);
     st_medium := length (List.filter (fun a => Qle_bool 30 (av_severity a) &&
                                                Qlt_bool (av_severity a) 70) alerts);
     st_low := length (List.filter (fun a => Qlt_bool (av_severity a) 30) alerts);
     st_byType := byType inherited_text alerts |}.

(** [Math.min(...lats)] etc. of [MapBounds]: the corners
    [[minLat, minLon], [maxLat, maxLon]] handed to [map.fitBounds], or
    [None] when [bounds] is empty and [fitBounds] is not called. *)
Definition MapBounds (bounds : list (Q * Q)) : option ((Q * Q) * (Q * Q)) :=
  match map fst bounds, map snd bounds with
  | la :: lats, lo :: lons =>
      Some ((fold_left Qmin lats la, fold_left Qmin lons lo),
            (fold_left Qmax lats la, fold_left Qmax lons lo))
  | _, _ => None
  end.






End VesselDetailsView.

Module MapViewBounds.
Import VesselDetailsView.
End MapViewBounds.

Module Onboarding.
Definition step_titles : list string :=
  ["Welcome to AegisAIS"; "1. Upload Your Data"; "2. Monitor Processing"; "3. View Alerts";
   "4. Explore Vessels"; "5. Visualize on Map"; "6. Vessel Details"; "You're Ready!"].

Inductive Event := Next | Previous | Skip.

(** The tour shows [steps[currentStep]] until [onComplete] or [onSkip]
    closes it; a closed tour receives no further clicks. *)
Inductive State := Showing (currentStep : nat) | Completed | SkippedTour.

Definition handleNext (currentStep : nat) : State :=
  if Nat.ltb currentStep (length step_titles - 1) then Showing (currentStep + 1) else Completed.

Definition handlePrevious (currentStep : nat) : State :=
  if Nat.ltb 0 currentStep then Showing (currentStep - 1) else Showing currentStep.

Definition step (st : State) (e : Event) : State :=
  match st with
  | Showing s => match e with Next => handleNext s | Previous => handlePrevious s | Skip => SkippedTour end
  | done => done
  end.

Definition run (evs : list Event) : State := fold_left step evs (Showing 0).
End Onboarding.

(** [`${API_BASE_URL.replace('http', 'ws')}/v1/stream`]: [replace] with a
    string pattern replaces its first occurrence. *)
Fixpoint replace_first (pat rep s : string) : string :=
  if String.prefix pat s then rep ++ String.substring (String.length pat) (String.length s) s
  else match s with
       | EmptyString => EmptyString
       | String c r => String c (replace_first pat rep r)
       end.

Definition stream_url (api_base_url : string) : string :=
  replace_first "http" "ws" api_base_url ++ "/v1/stream".

Import VesselDetailsView.

Definition type_count (t : string) (alerts : list AlertView) : nat :=
  length (List.filter (fun a => String.eqb (av_type a) t) alerts).


Import Onboarding.

(* ===================================================================== *)
(** * Properties *)
(* ===================================================================== *)

(** ** Frontend *)

Lemma Qle_bool_false (x y : Q) : Qle_bool x y = false -> y < x.
Proof.
  intro H. apply Qnot_le_lt. intro Hle. apply Qle_bool_iff in Hle. congruence.
Qed.

(** C9: the severity level of the alert list is "high" exactly from 70,
    "medium" exactly on [30, 70) and "low" exactly below 30; the vessel
    list and the vessel details compute the same level, and the map colour
    is the colour of that level. *)
Theorem severity_level_thresholds (s : Q) :
  (AlertsPanel.getSeverityLevel s = "high" <-> 70 <= s) /\
  (AlertsPanel.getSeverityLevel s = "medium" <-> 30 <= s /\ s < 70) /\
  (AlertsPanel.getSeverityLevel s = "low" <-> s < 30) /\
  VesselsPanel.getSeverityLevel s = AlertsPanel.getSeverityLevel s /\
  VesselDetails.getSeverityLevel s = AlertsPanel.getSeverityLevel s /\
  MapView.getSeverityColor s = level_color (AlertsPanel.getSeverityLevel s).
Proof.
  unfold AlertsPanel.getSeverityLevel, VesselsPanel.getSeverityLevel,
    VesselDetails.getSeverityLevel, MapView.getSeverityColor.
  destruct (Qle_bool 70 s) eqn:E70;
    [apply Qle_bool_iff in E70 | apply Qle_bool_false in E70];
  destruct (Qle_bool 30 s) eqn:E30;
    try apply Qle_bool_iff in E30; try apply Qle_bool_false in E30;
  repeat split; try discriminate; intros; try lra;
  try (exfalso; lra); reflexivity.
Qed.

Ltac eqb_cases t :=
  repeat match goal with
  | |- context [String.eqb t ?c] =>
      destruct (String.eqb_spec t c); [subst t|]
  end.

(** C10 (counterexample): a suspicious alert type of the enum gets its
    own purpose, not the generic one. *)
Lemma classification_teleport_t2_purpose :
  AlertsPanel.tier (AlertsPanel.getAlertClassification "TELEPORT_T2") = AlertsPanel.suspicious /\
  AlertsPanel.purpose (AlertsPanel.getAlertClassification "TELEPORT_T2")
    <> AlertsPanel.generic_purpose.
Proof. split; [reflexivity | vm_compute; discriminate]. Qed.

(** C10 (amended): [getAlertClassification] maps exactly the four
    integrity types to tier integrity and every other string to tier
    suspicious; the three suspicious types of the enum have their own
    purposes, and every string outside the seven-value enum gets the
    generic purpose. *)
Theorem classification_total (t : string) :
  (AlertsPanel.tier (AlertsPanel.getAlertClassification t) = AlertsPanel.integrity
     <-> In t integrity_type_names) /\
  (~ In t integrity_type_names ->
     AlertsPanel.tier (AlertsPanel.getAlertClassification t) = AlertsPanel.suspicious /\
     AlertsPanel.tierLabel (AlertsPanel.getAlertClassification t) = AlertsPanel.suspicious_label) /\
  (~ In t alert_type_names ->
     AlertsPanel.purpose (AlertsPanel.getAlertClassification t) = AlertsPanel.generic_purpose) /\
  (In t alert_type_names ->
     AlertsPanel.purpose (AlertsPanel.getAlertClassification t) <> AlertsPanel.generic_purpose).
Proof.
  unfold AlertsPanel.getAlertClassification, integrity_type_names, alert_type_names.
  eqb_cases t; simpl;
    repeat split; try discriminate; try tauto; try (intros; reflexivity);
    try (vm_compute; discriminate);
    intros; exfalso; intuition congruence.
Qed.

(** ** Replay status *)

Section DriverFacts.

Variable distance_m : AisPoint -> AisPoint -> Q.
Variable cfg : Config.

Lemma driver_steps_running (rejects : Rejects) (ps : list AisPoint) :
  forall (db : DB) (d : Driver),
  phase d = Running -> d_stop_requested d = false ->
  let d' := (fold_left (driver_step distance_m cfg rejects) ps (db, d)).2 in
  phase d' = Running /\ d_stop_requested d' = false /\
  s_processed (d_session d') = (s_processed (d_session d) + length ps)%nat.
Proof.
  induction ps as [|p ps IH]; intros db d Hph Hst; cbn [fold_left length].
  - simpl. rewrite Nat.add_0_r. auto.
  - destruct (replay_step distance_m cfg rejects (db, d_session d) p) as [db' s'] eqn:E.
    assert (Hstep : driver_step distance_m cfg rejects (db, d) p
                    = (db', {| phase := Running; d_session := s'; d_stop_requested := false |})).
    { unfold driver_step. rewrite Hph, Hst, E. reflexivity. }
    rewrite Hstep.
    destruct (IH db' {| phase := Running; d_session := s'; d_stop_requested := false |}
                eq_refl eq_refl) as (H1 & H2 & H3).
    repeat split; try assumption.
    rewrite H3. simpl.
    unfold replay_step in E.
    destruct (push _ _ _) as [tr w].
    destruct (ingest_point _ _ _ _) as [db2 out].
    inversion E; subst; simpl. lia.
Qed.

Lemma start_replay_started (d d' : Driver) path_ok sp us bs :
  start_replay d path_ok sp us bs = (Started, d') ->
  phase d' = Running /\ d_stop_requested d' = false /\ d_session d' = new_session.
Proof.
  unfold start_replay.
  destruct (negb (speedup_valid sp)); [discriminate|].
  destruct (negb _); [discriminate|].
  destruct (phase d); try discriminate.
  destruct path_ok; [|discriminate].
  intro H. inversion H; subst. auto.
Qed.

End DriverFacts.

(** C1 (counterexample): the status object has a [processed] key, not a
    [processed_count] key. *)
Lemma replay_status_keys_counterexample :
  json_keys (replay_status_json (replay_status initial_driver))
    <> ["running"; "processed_count"; "last_timestamp"; "stop_requested"].
Proof. vm_compute. discriminate. Qed.

(** C1 (amended): every status object has exactly the keys [running],
    [processed], [last_timestamp] and [stop_requested]; after a
    successful start, [processed] counts the points of the session
    processed so far while it runs, and all of them once it is back to
    idle. *)
Theorem replay_status_fields (distance_m : AisPoint -> AisPoint -> Q) (cfg : Config)
    (rejects : Rejects) (db : DB) (d0 d : Driver) (path_ok : bool) (sp : Speedup)
    (us : bool) (bs : Z) (ps : list AisPoint)
    (Hstart : start_replay d0 path_ok sp us bs = (Started, d)) :
  (forall d1, json_keys (replay_status_json (replay_status d1))
              = ["running"; "processed"; "last_timestamp"; "stop_requested"]) /\
  (forall k, (k <= length ps)%nat ->
     let st := replay_status (fold_left (driver_step distance_m cfg rejects) (take k ps) (db, d)).2 in
     running st = true /\ processed st = k) /\
  (let st := replay_status (run_session distance_m cfg rejects db d ps).2 in
   running st = false /\ processed st = length ps).
Proof.
  destruct (start_replay_started _ _ _ _ _ _ Hstart) as (Hph & Hst & Hs).
  split; [reflexivity|]. split.
  - intros k Hk.
    destruct (driver_steps_running distance_m cfg rejects (take k ps) db d Hph Hst)
      as (H1 & _ & H3).
    unfold replay_status. rewrite H1, H3, Hs. simpl.
    rewrite length_take. split; [reflexivity|]. lia.
  - unfold run_session.
    destruct (driver_steps_running distance_m cfg rejects ps db d Hph Hst) as (_ & _ & H3).
    destruct (fold_left _ ps (db, d)) as [db' d'] eqn:E. simpl in H3 |- *.
    rewrite H3, Hs. split; reflexivity.
Qed.

(** ** Track store *)

Lemma tail_drop_S {A} (k : nat) (l : list A) : tail (drop k l) = drop (S k) l.
Proof.
  revert l; induction k as [|k IH]; intros [|x l]; simpl; try reflexivity.
  - apply IH.
Qed.

Lemma ring_push_lastn (n : nat) (l : list AisPoint) (p : AisPoint) :
  (0 < n)%nat -> ring_push n (lastn n l) p = lastn n (l ++ [p]).
Proof.
  intro Hn. unfold ring_push, lastn. rewrite length_drop.
  replace (length (l ++ [p])) with (S (length l)) by (rewrite length_app; simpl; lia).
  destruct (Nat.ltb_spec (length l - (length l - n)) n) as [H|H].
  - replace (length l - n)%nat with 0%nat by lia.
    replace (S (length l) - n)%nat with 0%nat by lia.
    rewrite !drop_0. reflexivity.
  - rewrite drop_app_le by lia. f_equal.
    rewrite tail_drop_S. f_equal. lia.
Qed.

Lemma length_lastn {A} (n : nat) (l : list A) : (length (lastn n l) <= n)%nat.
Proof. unfold lastn. rewrite length_drop. lia. Qed.

Lemma points_of_snoc (v : string) (hist : list AisPoint) (p : AisPoint) :
  points_of v (hist ++ [p]) = if decide (mmsi p = v) then (points_of v hist ++ [p])%list
                              else points_of v hist.
Proof.
  unfold points_of. rewrite filter_app. simpl.
  destruct (decide (mmsi p = v)) as [E|E].
  - rewrite filter_cons_True by assumption. reflexivity.
  - rewrite filter_cons_False by assumption. simpl. apply app_nil_r.
Qed.

Lemma push_all_lastn (cap : nat) (Hcap : (0 < cap)%nat) (ps : list AisPoint) :
  forall (store : TrackStore) (hist : list AisPoint),
  (forall v, default [] (store !! v) = lastn cap (points_of v hist)) ->
  forall v, default [] (push_all cap store ps !! v) = lastn cap (points_of v (hist ++ ps)).
Proof.
  induction ps as [|p ps IH]; intros store hist Hinv v; simpl.
  - rewrite app_nil_r. apply Hinv.
  - replace (hist ++ p :: ps)%list with ((hist ++ [p]) ++ ps)%list by (rewrite <- app_assoc; reflexivity).
    apply IH. intro w. unfold push. simpl.
    rewrite points_of_snoc.
    destruct (decide (mmsi p = w)) as [E|E].
    + subst w. rewrite lookup_insert_eq. simpl.
      rewrite Hinv. apply ring_push_lastn, Hcap.
    + rewrite lookup_insert_ne by assumption. apply Hinv.
Qed.

(** C4: after any sequence of pushes into a fresh session store, the ring
    of every vessel holds at most 5 points, namely the 5 most recently
    pushed points of that vessel in insertion order (strict FIFO); a push
    returns the vessel's ring after insertion, oldest first, with the
    pushed point last, evicting the oldest point when the ring was full. *)
Theorem track_store_fifo :
  let cap := track_window_size default_config in
  (forall (ps : list AisPoint) (v : string),
     let ring := default [] (push_all cap ∅ ps !! v) in
     (length ring <= 5)%nat /\ ring = lastn 5 (points_of v ps)) /\
  (forall (store : TrackStore) (p : AisPoint),
     let old := default [] (store !! mmsi p) in
     let r := (push cap store p).2 in
     (push cap store p).1 !! mmsi p = Some r /\
     last r = Some p /\
     ((length old < 5)%nat -> r = (old ++ [p])%list) /\
     (length old = 5%nat -> r = (tail old ++ [p])%list)).
Proof.
  simpl. split.
  - intros ps v.
    rewrite (push_all_lastn 5 ltac:(lia) ps ∅ [] (fun w => ltac:(rewrite lookup_empty; reflexivity)) v).
    simpl.
    split; [apply length_lastn | reflexivity].
  - intros store p. unfold push, ring_push. simpl.
    rewrite lookup_insert_eq.
    destruct (Nat.ltb_spec (length (default [] (store !! mmsi p))) 5) as [H|H].
    + repeat split; [rewrite last_snoc; reflexivity | intros; lia].
    + repeat split; [rewrite last_snoc; reflexivity | intros; lia].
Qed.

(** ** Persistence unit *)

Lemma exec_Some (rejects : Rejects) (w : Write) (db db' : DB) (u : unit) :
  exec rejects w db = Some (u, db') -> rejects db w = false /\ db' = apply_write w db.
Proof.
  unfold exec. destruct (rejects db w); intro H; inversion H; auto.
Qed.

Lemma exec_no_failure (w : Write) (db : DB) :
  exec no_failure w db = Some (tt, apply_write w db).
Proof. reflexivity. Qed.

Section Unit.

Variable cfg : Config.

Lemma process_candidates_cons (rejects : Rejects) (c : Candidate) (cs : list Candidate) :
  process_candidates cfg rejects (c :: cs) =
  (let* db := tx_read in
   if cooldown_ok cfg db c then
     let* _ := exec rejects (InsertAlert c) in
     let* _ := exec rejects (UpsertCooldown (cooldown_key c) (c_timestamp c)) in
     let* rest := process_candidates cfg rejects cs in
     tx_ret (c :: rest)
   else process_candidates cfg rejects cs).
Proof. reflexivity. Qed.

Lemma process_candidates_no_failure (cs : list Candidate) :
  forall db, exists acc db', process_candidates cfg no_failure cs db = Some (acc, db').
Proof.
  induction cs as [|c cs IH]; intro db.
  - simpl. eauto.
  - rewrite process_candidates_cons. unfold tx_bind, tx_read. destruct (cooldown_ok cfg db c).
    + repeat (rewrite exec_no_failure; cbv beta iota).
      match goal with
      | |- context [process_candidates cfg no_failure cs ?x] =>
          destruct (IH x) as (acc & db' & E)
      end.
      exists (c :: acc), db'. rewrite E. reflexivity.
    + apply IH.
Qed.

Lemma process_candidates_agree (rejects : Rejects) (cs : list Candidate) :
  forall db acc db', process_candidates cfg rejects cs db = Some (acc, db') ->
  process_candidates cfg no_failure cs db = Some (acc, db').
Proof.
  induction cs as [|c cs IH]; intros db acc db' H.
  - exact H.
  - rewrite process_candidates_cons in *. unfold tx_bind, tx_read in *. destruct (cooldown_ok cfg db c).
    + repeat (rewrite exec_no_failure; cbv beta iota).
      unfold exec in H.
      destruct (rejects db (InsertAlert c)); [discriminate|].
      destruct (rejects _ (UpsertCooldown _ _)); [discriminate|].
      destruct (process_candidates cfg rejects cs _) as [[rest db2]|] eqn:E; [|discriminate].
      rewrite (IH _ _ _ E). exact H.
    + apply IH, H.
Qed.

Lemma persist_unit_no_failure (p : AisPoint) (cs : list Candidate) (db : DB) :
  exists acc db', persist_unit cfg no_failure p cs db = Some (acc, db').
Proof.
  unfold persist_unit, tx_bind.
  repeat (rewrite exec_no_failure; cbv beta iota).
  destruct (process_candidates_no_failure cs
              (apply_write (InsertPosition p) (apply_write (UpsertLatest p) db)))
    as (acc & db1 & E).
  destruct acc as [|c acc].
  - exists [], db1. rewrite E. reflexivity.
  - exists (c :: acc), (apply_write (UpdateSeverity (mmsi p) (max_severity (c :: acc))) db1).
    rewrite E. rewrite exec_no_failure. reflexivity.
Qed.

Lemma persist_unit_agree (rejects : Rejects) (p : AisPoint) (cs : list Candidate)
    (db db' : DB) (acc : list Candidate) :
  persist_unit cfg rejects p cs db = Some (acc, db') ->
  persist_unit cfg no_failure p cs db = Some (acc, db').
Proof.
  unfold persist_unit, tx_bind.
  repeat (rewrite exec_no_failure; cbv beta iota).
  unfold exec.
  destruct (rejects db (UpsertLatest p)); [discriminate|].
  destruct (rejects _ (InsertPosition p)); [discriminate|].
  destruct (process_candidates cfg rejects cs _) as [[acc1 db1]|] eqn:E; [|discriminate].
  rewrite (process_candidates_agree _ _ _ _ _ E).
  destruct acc1 as [|c acc1]; [tauto|].
  try rewrite exec_no_failure.
  destruct (rejects db1 _); [discriminate|]. tauto.
Qed.

Lemma ingest_point_all_or_nothing (rejects : Rejects) (db : DB) (p : AisPoint)
    (cs : list Candidate) :
  ingest_point cfg rejects db p cs = (db, Skipped) \/
  ingest_point cfg rejects db p cs = ingest_point cfg no_failure db p cs.
Proof.
  unfold ingest_point.
  destruct (persist_unit cfg rejects p cs db) as [[acc db']|] eqn:E.
  - right. rewrite (persist_unit_agree _ _ _ _ _ _ E). reflexivity.
  - left. reflexivity.
Qed.

End Unit.

Section ReplayFacts.

Variable distance_m : AisPoint -> AisPoint -> Q.
Variable cfg : Config.

Lemma replay_is_selection (rejects : Rejects) (ps : list AisPoint) :
  forall (db : DB) (s : Session),
  exists oks : list bool, length oks = length ps /\
    replay distance_m cfg rejects db s ps = replay_sel distance_m cfg db s ps oks.
Proof.
  unfold replay, replay_sel.
  induction ps as [|p ps IH]; intros db s.
  - exists []. split; reflexivity.
  - cbn [fold_left].
    unfold replay_step at 2.
    match goal with
    | |- context [push ?a ?b ?c] => destruct (push a b c) as [tr w] eqn:Ep
    end.
    set (cs := evaluate_rules distance_m cfg (previous w) p).
    destruct (ingest_point_all_or_nothing cfg rejects db p cs) as [H|H].
    + rewrite H.
      destruct (IH db {| track := tr; s_processed := S (s_processed s);
                         s_skipped := S (s_skipped s); s_last_ts := Some (timestamp p) |})
        as (oks & Hl & Heq).
      exists (false :: oks). split; [simpl; congruence|].
      rewrite Heq. cbn [zip zip_with fold_left]. f_equal.
      unfold replay_step_sel. rewrite Ep. reflexivity.
    + rewrite H.
      destruct (persist_unit_no_failure cfg p cs db) as (acc & db' & E).
      assert (Hi : ingest_point cfg no_failure db p cs = (db', Persisted acc))
        by (unfold ingest_point; rewrite E; reflexivity).
      rewrite Hi.
      destruct (IH db' {| track := tr; s_processed := S (s_processed s);
                          s_skipped := s_skipped s; s_last_ts := Some (timestamp p) |})
        as (oks & Hl & Heq).
      exists (true :: oks). split; [simpl; congruence|].
      rewrite Heq. cbn [zip zip_with fold_left]. f_equal.
      unfold replay_step_sel. rewrite Ep. fold cs. rewrite Hi. reflexivity.
Qed.

Lemma replay_processed (rejects : Rejects) (ps : list AisPoint) :
  forall (db : DB) (s : Session),
  s_processed (replay distance_m cfg rejects db s ps).2 = (s_processed s + length ps)%nat.
Proof.
  unfold replay.
  induction ps as [|p ps IH]; intros db s; cbn [fold_left length].
  - simpl. lia.
  - unfold replay_step at 2.
    destruct (push _ _ _) as [tr w].
    destruct (ingest_point _ _ _ _ _) as [db' out].
    rewrite IH. simpl. lia.
Qed.

End ReplayFacts.

(** C5: a point's persistence unit is applied entirely or not at all:
    whatever writes the storage rejects, ingesting a point either leaves
    the database unchanged and reports the point as skipped, or yields
    exactly the state of the whole unit run without failure (which always
    succeeds); a replay attempts every point, and its result is that of
    committing some points whole and skipping the others. *)
Theorem unit_atomic (distance_m : AisPoint -> AisPoint -> Q) (cfg : Config)
    (rejects : Rejects) :
  (forall db p cs,
     ingest_point cfg rejects db p cs = (db, Skipped) \/
     ingest_point cfg rejects db p cs = ingest_point cfg no_failure db p cs) /\
  (forall db p cs, exists acc, (ingest_point cfg no_failure db p cs).2 = Persisted acc) /\
  (forall db s ps,
     s_processed (replay distance_m cfg rejects db s ps).2 = (s_processed s + length ps)%nat /\
     exists oks : list bool, length oks = length ps /\
       replay distance_m cfg rejects db s ps = replay_sel distance_m cfg db s ps oks).
Proof.
  split; [|split].
  - apply ingest_point_all_or_nothing.
  - intros db p cs. destruct (persist_unit_no_failure cfg p cs db) as (acc & db' & E).
    exists acc. unfold ingest_point. rewrite E. reflexivity.
  - intros db s ps. split.
    + apply replay_processed.
    + apply replay_is_selection.
Qed.

(** ** Cooldown gate *)

Lemma rule_type_str_inj (r1 r2 : RuleType) : rule_type_str r1 = rule_type_str r2 -> r1 = r2.
Proof. destruct r1, r2; simpl; intro H; try reflexivity; discriminate. Qed.

Lemma CooldownInv_same_tables (cd : Z) (db db' : DB) :
  alerts db' = alerts db -> alert_cooldowns db' = alert_cooldowns db ->
  CooldownInv cd db -> CooldownInv cd db'.
Proof. unfold CooldownInv. intros -> ->. tauto. Qed.

Section CooldownFacts.

Variable cfg : Config.
Hypothesis Hcd : (0 <= alert_cooldown_sec cfg)%Z.

Lemma CooldownInv_accept (db : DB) (c : Candidate) :
  CooldownInv (alert_cooldown_sec cfg) db -> cooldown_ok cfg db c = true ->
  CooldownInv (alert_cooldown_sec cfg)
    (apply_write (UpsertCooldown (cooldown_key c) (c_timestamp c))
       (apply_write (InsertAlert c) db)).
Proof.
  intros [Hrow Hgap] Hok. unfold cooldown_ok in Hok.
  set (a0 := alert_of_candidate (length (alerts db)) c).
  (* the row of an old alert of the candidate's key is before [c] *)
  assert (Hold : forall a, In a (alerts db) ->
            (a_mmsi a, rule_type_str (a_type a)) = cooldown_key c ->
            exists r, alert_cooldowns db !! cooldown_key c = Some r /\
                      (a_timestamp a <= r)%Z /\
                      (alert_cooldown_sec cfg <= c_timestamp c - r)%Z).
  { intros a Ha Hk. destruct (Hrow a Ha) as (r & Hr & Hle).
    rewrite Hk in Hr. exists r. rewrite Hr in Hok. apply Z.leb_le in Hok. auto. }
  simpl. split.
  - intros a Ha. apply in_app_or in Ha. simpl.
    destruct (decide ((a_mmsi a, rule_type_str (a_type a)) = cooldown_key c)) as [Hk|Hk].
    + rewrite Hk, lookup_insert_eq. eexists; split; [reflexivity|].
      destruct Ha as [Ha|[Ha|[]]].
      * destruct (Hold a Ha Hk) as (r & _ & H1 & H2). lia.
      * subst a. simpl. lia.
    + rewrite lookup_insert_ne by congruence.
      destruct Ha as [Ha|[Ha|[]]].
      * apply Hrow, Ha.
      * subst a. exfalso. apply Hk. reflexivity.
  - intros a1 a2 H1 H2 Hm Ht Hlt.
    apply in_app_or in H1, H2. simpl in H1, H2.
    destruct H1 as [H1|[H1|[]]], H2 as [H2|[H2|[]]].
    + apply (Hgap a1 a2); assumption.
    + subst a2. simpl in *.
      assert (Hk : (a_mmsi a1, rule_type_str (a_type a1)) = cooldown_key c)
        by (unfold cooldown_key; rewrite Hm, Ht; reflexivity).
      destruct (Hold a1 H1 Hk) as (r & _ & Hr1 & Hr2). lia.
    + subst a1. simpl in *.
      assert (Hk : (a_mmsi a2, rule_type_str (a_type a2)) = cooldown_key c)
        by (unfold cooldown_key; rewrite <- Hm, <- Ht; reflexivity).
      destruct (Hold a2 H2 Hk) as (r & _ & Hr1 & Hr2). lia.
    + subst a1 a2. lia.
Qed.

Lemma CooldownInv_write_other (w : Write) (db : DB) :
  (forall c, w <> InsertAlert c) -> (forall k t, w <> UpsertCooldown k t) ->
  CooldownInv (alert_cooldown_sec cfg) db ->
  CooldownInv (alert_cooldown_sec cfg) (apply_write w db).
Proof.
  intros Hn1 Hn2. destruct w as [p|p|c|k t|m s]; simpl.
  - destruct (vessels_latest db !! mmsi p) as [vl|].
    + destruct (timestamp p <? timestamp (vl_point vl))%Z; [tauto|].
      apply CooldownInv_same_tables; reflexivity.
    + apply CooldownInv_same_tables; reflexivity.
  - apply CooldownInv_same_tables; reflexivity.
  - exfalso. apply (Hn1 c). reflexivity.
  - exfalso. apply (Hn2 k t). reflexivity.
  - apply CooldownInv_same_tables; reflexivity.
Qed.

Lemma process_candidates_CooldownInv (rejects : Rejects) (cs : list Candidate) :
  forall db acc db', process_candidates cfg rejects cs db = Some (acc, db') ->
  CooldownInv (alert_cooldown_sec cfg) db -> CooldownInv (alert_cooldown_sec cfg) db'.
Proof.
  induction cs as [|c cs IH]; intros db acc db' H Hinv.
  - simpl in H. inversion H; subst. exact Hinv.
  - rewrite process_candidates_cons in H. unfold tx_bind, tx_read in H.
    destruct (cooldown_ok cfg db c) eqn:Hok.
    + unfold exec in H.
      destruct (rejects db (InsertAlert c)); [discriminate|].
      destruct (rejects _ (UpsertCooldown _ _)); [discriminate|].
      destruct (process_candidates cfg rejects cs _) as [[rest db2]|] eqn:E; [|discriminate].
      unfold tx_ret in H. inversion H; subst.
      apply (IH _ _ _ E). apply CooldownInv_accept; assumption.
    + apply (IH _ _ _ H Hinv).
Qed.

Lemma ingest_point_CooldownInv (rejects : Rejects) (db : DB) (p : AisPoint)
    (cs : list Candidate) :
  CooldownInv (alert_cooldown_sec cfg) db ->
  CooldownInv (alert_cooldown_sec cfg) (ingest_point cfg rejects db p cs).1.
Proof.
  intro Hinv. unfold ingest_point.
  destruct (persist_unit cfg rejects p cs db) as [[acc db']|] eqn:E; [|exact Hinv].
  simpl. unfold persist_unit, tx_bind, exec in E.
  destruct (rejects db (UpsertLatest p)); [discriminate|].
  destruct (rejects _ (InsertPosition p)); [discriminate|].
  destruct (process_candidates cfg rejects cs _) as [[acc1 db1]|] eqn:E1; [|discriminate].
  assert (H1 : CooldownInv (alert_cooldown_sec cfg) db1).
  { apply (process_candidates_CooldownInv _ _ _ _ _ E1).
    apply CooldownInv_write_other; try (intros; discriminate).
    apply CooldownInv_write_other; try (intros; discriminate). exact Hinv. }
  destruct acc1 as [|c acc1].
  - unfold tx_ret in E. inversion E; subst. exact H1.
  - destruct (rejects db1 _); [discriminate|].
    unfold tx_ret in E. inversion E; subst.
    apply (CooldownInv_same_tables _ db1); [reflexivity|reflexivity|exact H1].
Qed.

End CooldownFacts.

Lemma replay_CooldownInv (distance_m : AisPoint -> AisPoint -> Q) (cfg : Config)
    (Hcd : (0 <= alert_cooldown_sec cfg)%Z) (rejects : Rejects) (ps : list AisPoint) :
  forall db s, CooldownInv (alert_cooldown_sec cfg) db ->
  CooldownInv (alert_cooldown_sec cfg) (replay distance_m cfg rejects db s ps).1.
Proof.
  unfold replay.
  induction ps as [|p ps IH]; intros db s Hinv; cbn [fold_left].
  - exact Hinv.
  - unfold replay_step at 2.
    match goal with
    | |- context [push ?a ?b ?c] => destruct (push a b c) as [tr w]
    end.
    match goal with
    | |- context [ingest_point ?cf ?r ?d ?q ?cs] =>
        pose proof (ingest_point_CooldownInv cf Hcd r d q cs Hinv) as Hi;
        destruct (ingest_point cf r d q cs) as [db' out]
    end.
    apply IH, Hi.
Qed.

Lemma CooldownInv_empty (cd : Z) : CooldownInv cd empty_db.
Proof. split; simpl; intros; contradiction. Qed.

(** C3: the gate accepts a candidate exactly when its key has no cooldown
    row or its source timestamp is at least the cooldown interval after
    the row's timestamp; an accepted candidate upserts the row with its
    own timestamp; hence, from a fresh database (or any database where it
    already holds), any two persisted alerts of one vessel and rule type
    with source timestamps [t1 < t2] satisfy [t2 - t1 >= cooldown], for
    every replay whatever the storage rejects.  Only source timestamps
    enter the gate. *)
Theorem cooldown_spacing (distance_m : AisPoint -> AisPoint -> Q) (cfg : Config)
    (Hcd : (0 <= alert_cooldown_sec cfg)%Z) :
  (forall db c, cooldown_ok cfg db c = true <->
     alert_cooldowns db !! cooldown_key c = None \/
     exists last, alert_cooldowns db !! cooldown_key c = Some last /\
                  (alert_cooldown_sec cfg <= c_timestamp c - last)%Z) /\
  (forall db c acc db', process_candidates cfg no_failure [c] db = Some (acc, db') ->
     (acc = [c] <-> cooldown_ok cfg db c = true) /\
     (acc = [c] -> alert_cooldowns db' !! cooldown_key c = Some (c_timestamp c))) /\
  (forall rejects db s ps, CooldownInv (alert_cooldown_sec cfg) db ->
     CooldownInv (alert_cooldown_sec cfg) (replay distance_m cfg rejects db s ps).1) /\
  (forall rejects s ps a1 a2,
     In a1 (alerts (replay distance_m cfg rejects empty_db s ps).1) ->
     In a2 (alerts (replay distance_m cfg rejects empty_db s ps).1) ->
     a_mmsi a1 = a_mmsi a2 -> a_type a1 = a_type a2 ->
     (a_timestamp a1 < a_timestamp a2)%Z ->
     (alert_cooldown_sec cfg <= a_timestamp a2 - a_timestamp a1)%Z).
Proof.
  split; [|split; [|split]].
  - intros db c. unfold cooldown_ok.
    destruct (alert_cooldowns db !! cooldown_key c) as [last|].
    + rewrite Z.leb_le. split.
      * intro H. right. eauto.
      * intros [H|(l & Hl & H)]; [discriminate|]. inversion Hl; subst. exact H.
    + split; auto.
  - intros db c acc db' H.
    rewrite process_candidates_cons in H. unfold tx_bind, tx_read in H.
    destruct (cooldown_ok cfg db c) eqn:Hok.
    + repeat (rewrite exec_no_failure in H; cbv beta iota in H).
      simpl in H. unfold tx_ret in H. inversion H; subst.
      split; [tauto|]. intros _. simpl. apply lookup_insert_eq.
    + simpl in H. unfold tx_ret in H. inversion H; subst.
      split; [split; [discriminate|discriminate]|discriminate].
  - intros rejects db s ps Hinv. apply replay_CooldownInv; assumption.
  - intros rejects s ps a1 a2 H1 H2 Hm Ht Hlt.
    destruct (replay_CooldownInv distance_m cfg Hcd rejects ps empty_db s
                (CooldownInv_empty _)) as [_ Hgap].
    apply (Hgap a1 a2); assumption.
Qed.

(** ** Alerts created by the pipeline *)

Lemma clamp_range (x lo hi : Q) :
  0 <= lo -> lo <= hi -> hi <= 100 -> 0 <= clamp x lo hi <= 100.
Proof.
  intros H0 H1 H2. unfold clamp.
  destruct (Qle_bool x lo) eqn:E1; [lra|]. apply Qle_bool_false in E1.
  destruct (Qle_bool hi x) eqn:E2; [lra|]. apply Qle_bool_false in E2. lra.
Qed.

Ltac open_rule H :=
  cbv zeta in H;
  repeat match type of H with
  | context [match ?x with _ => _ end] => destruct x
  end.

Ltac rule_range :=
  intros c H; open_rule H; try discriminate;
  inversion H; subst; simpl;
  first [apply clamp_range; lra | lra].

Section RuleRanges.

Variable distance_m : AisPoint -> AisPoint -> Q.
Variable cfg : Config.


Lemma rule_teleport_range (prev curr : AisPoint) :
  forall c, rule_teleport distance_m cfg prev curr = Some c -> SevInRange c.
Proof. unfold rule_teleport, SevInRange. rule_range. Qed.

Lemma rule_teleport_t2_range (prev curr : AisPoint) :
  forall c, rule_teleport_t2 distance_m cfg prev curr = Some c -> SevInRange c.
Proof. unfold rule_teleport_t2, SevInRange. rule_range. Qed.

Lemma rule_position_invalid_range (prev : option AisPoint) (curr : AisPoint) :
  forall c, rule_position_invalid distance_m prev curr = Some c -> SevInRange c.
Proof. unfold rule_position_invalid, SevInRange. rule_range. Qed.

Lemma rule_turn_rate_range (prev curr : AisPoint) :
  forall c, rule_turn_rate distance_m cfg prev curr = Some c -> SevInRange c.
Proof. unfold rule_turn_rate, SevInRange. rule_range. Qed.

Lemma rule_turn_rate_t2_range (prev curr : AisPoint) :
  forall c, rule_turn_rate_t2 distance_m cfg prev curr = Some c -> SevInRange c.
Proof. unfold rule_turn_rate_t2, SevInRange. rule_range. Qed.

Lemma rule_acceleration_range (prev curr : AisPoint) :
  forall c, rule_acceleration distance_m prev curr = Some c -> SevInRange c.
Proof. unfold rule_acceleration, SevInRange. rule_range. Qed.

Lemma rule_heading_cog_range (prev curr : AisPoint) :
  forall c, rule_heading_cog distance_m prev curr = Some c -> SevInRange c.
Proof. unfold rule_heading_cog, SevInRange. rule_range. Qed.

End RuleRanges.

Lemma in_cat_options {A} (l : list (option A)) (x : A) : In x (cat_options l) -> In (Some x) l.
Proof.
  induction l as [|[y|] l IH]; simpl; [tauto| |].
  - intros [H|H]; [left; congruence | right; auto].
  - intro H. right. auto.
Qed.

Lemma evaluate_rules_range (distance_m : AisPoint -> AisPoint -> Q) (cfg : Config)
    (prev : option AisPoint) (curr : AisPoint) :
  forall c, In c (evaluate_rules distance_m cfg prev curr) -> SevInRange c.
Proof.
  intros c Hc. unfold evaluate_rules in Hc.
  destruct prev as [p|]; apply in_cat_options in Hc; simpl in Hc.
  - destruct Hc as [H|[H|[H|[H|[H|[H|[H|[]]]]]]]].
    + apply (rule_teleport_range _ _ _ _ _ H).
    + apply (rule_teleport_t2_range _ _ _ _ _ H).
    + apply (rule_position_invalid_range _ _ _ _ H).
    + apply (rule_turn_rate_range _ _ _ _ _ H).
    + apply (rule_turn_rate_t2_range _ _ _ _ _ H).
    + apply (rule_acceleration_range _ _ _ _ H).
    + apply (rule_heading_cog_range _ _ _ _ H).
  - destruct Hc as [H|[]].
    apply (rule_position_invalid_range _ _ _ _ H).
Qed.

Lemma AppendedFrom_refl (cs : list Candidate) (db db' : DB) :
  alerts db' = alerts db -> AppendedFrom cs db db'.
Proof. intro H. exists []. rewrite app_nil_r. split; [exact H | intros a []]. Qed.

Lemma AppendedFrom_trans (cs : list Candidate) (db1 db2 db3 : DB) :
  AppendedFrom cs db1 db2 -> AppendedFrom cs db2 db3 -> AppendedFrom cs db1 db3.
Proof.
  intros (l1 & E1 & H1) (l2 & E2 & H2). exists (l1 ++ l2)%list.
  split; [rewrite E2, E1, app_assoc; reflexivity|].
  intros a Ha. apply in_app_or in Ha. destruct Ha; auto.
Qed.

Lemma AppendedFrom_mono (cs cs' : list Candidate) (db db' : DB) :
  (forall c, In c cs -> In c cs') -> AppendedFrom cs db db' -> AppendedFrom cs' db db'.
Proof.
  intros Hsub (l & E & H). exists l. split; [exact E|].
  intros a Ha. destruct (H a Ha) as (n & c & Hc & ->). eauto.
Qed.

Lemma alerts_write_other (w : Write) (db : DB) :
  (forall c, w <> InsertAlert c) -> alerts (apply_write w db) = alerts db.
Proof.
  intro Hn. destruct w as [p|p|c|k t|m s]; simpl; try reflexivity.
  - destruct (vessels_latest db !! mmsi p) as [vl|]; [|reflexivity].
    destruct (timestamp p <? timestamp (vl_point vl))%Z; reflexivity.
  - exfalso. apply (Hn c). reflexivity.
Qed.

Section Appended.

Variable cfg : Config.

Lemma process_candidates_appended (rejects : Rejects) (cs : list Candidate) :
  forall db acc db', process_candidates cfg rejects cs db = Some (acc, db') ->
  AppendedFrom cs db db'.
Proof.
  induction cs as [|c cs IH]; intros db acc db' H.
  - simpl in H. inversion H; subst. apply AppendedFrom_refl. reflexivity.
  - rewrite process_candidates_cons in H. unfold tx_bind, tx_read in H.
    destruct (cooldown_ok cfg db c) eqn:Hok.
    + unfold exec in H.
      destruct (rejects db (InsertAlert c)); [discriminate|].
      destruct (rejects _ (UpsertCooldown _ _)); [discriminate|].
      destruct (process_candidates cfg rejects cs _) as [[rest db2]|] eqn:E; [|discriminate].
      unfold tx_ret in H. inversion H; subst.
      eapply AppendedFrom_trans; [|eapply AppendedFrom_mono; [|exact (IH _ _ _ E)]];
        [|intros c' Hc'; right; exact Hc'].
      exists [alert_of_candidate (length (alerts db)) c]. split; [reflexivity|].
      intros a [Ha|[]]. exists (length (alerts db)), c. split; [left; reflexivity | symmetry; exact Ha].
    + eapply AppendedFrom_mono; [|exact (IH _ _ _ H)]. intros c' Hc'; right; exact Hc'.
Qed.

Lemma ingest_point_appended (rejects : Rejects) (db : DB) (p : AisPoint) (cs : list Candidate) :
  AppendedFrom cs db (ingest_point cfg rejects db p cs).1.
Proof.
  unfold ingest_point.
  destruct (persist_unit cfg rejects p cs db) as [[acc db']|] eqn:E;
    [|apply AppendedFrom_refl; reflexivity].
  simpl. unfold persist_unit, tx_bind, exec in E.
  destruct (rejects db (UpsertLatest p)); [discriminate|].
  destruct (rejects _ (InsertPosition p)); [discriminate|].
  destruct (process_candidates cfg rejects cs _) as [[acc1 db1]|] eqn:E1; [|discriminate].
  pose proof (process_candidates_appended _ _ _ _ _ E1) as H1.
  destruct H1 as (l & El & Hl).
  rewrite !alerts_write_other in El by (intros; discriminate).
  destruct acc1 as [|c acc1].
  - unfold tx_ret in E. inversion E; subst. exists l. split; assumption.
  - destruct (rejects db1 _); [discriminate|].
    unfold tx_ret in E. inversion E; subst. exists l. split; [|assumption].
    simpl. exact El.
Qed.

End Appended.

(** Every alert a replay adds comes from a candidate of the rule engine
    and is created by [alert_of_candidate]. *)
Lemma replay_appended (distance_m : AisPoint -> AisPoint -> Q) (cfg : Config)
    (rejects : Rejects) (ps : list AisPoint) :
  forall db s, exists l,
    alerts (replay distance_m cfg rejects db s ps).1 = (alerts db ++ l)%list /\
    forall a, In a l -> exists n prev curr c,
      In c (evaluate_rules distance_m cfg prev curr) /\ a = alert_of_candidate n c.
Proof.
  unfold replay.
  induction ps as [|p ps IH]; intros db s; cbn [fold_left].
  - exists []. rewrite app_nil_r. split; [reflexivity | intros a []].
  - unfold replay_step at 2.
    match goal with
    | |- context [push ?a ?b ?c] => destruct (push a b c) as [tr w]
    end.
    match goal with
    | |- context [ingest_point ?cf ?r ?d ?q ?cs] =>
        pose proof (ingest_point_appended cf r d q cs) as (l1 & E1 & H1);
        destruct (ingest_point cf r d q cs) as [db' out]
    end.
    simpl in E1.
    match goal with
    | |- context [fold_left _ ps (db', ?s')] => destruct (IH db' s') as (l2 & E2 & H2)
    end.
    exists (l1 ++ l2)%list. split; [rewrite E2, E1, app_assoc; reflexivity|].
    intros a Ha. apply in_app_or in Ha. destruct Ha as [Ha|Ha]; [|apply H2, Ha].
    destruct (H1 a Ha) as (n & c & Hc & ->). exists n, (previous w), p, c. auto.
Qed.

Lemma Qfloor_range (q : Q) : 0 <= q <= 100 -> (0 <= Qfloor q <= 100)%Z.
Proof.
  intros [H0 H1]. split.
  - change 0%Z with (Qfloor 0). apply Qfloor_resp_le. exact H0.
  - change 100%Z with (Qfloor 100). apply Qfloor_resp_le. exact H1.
Qed.

Lemma rule_type_str_closed (r : RuleType) : In (rule_type_str r) alert_type_names.
Proof. destruct r; simpl; tauto. Qed.

Lemma replay_AlertsWellFormed (distance_m : AisPoint -> AisPoint -> Q) (cfg : Config)
    (rejects : Rejects) (db : DB) (s : Session) (ps : list AisPoint) :
  AlertsWellFormed db -> AlertsWellFormed (replay distance_m cfg rejects db s ps).1.
Proof.
  intros Hdb a Ha.
  destruct (replay_appended distance_m cfg rejects ps db s) as (l & E & Hl).
  rewrite E in Ha. apply in_app_or in Ha. destruct Ha as [Ha|Ha]; [apply Hdb, Ha|].
  destruct (Hl a Ha) as (n & prev & curr & c & Hc & ->).
  split; [apply rule_type_str_closed|].
  apply Qfloor_range, (evaluate_rules_range _ _ _ _ _ Hc).
Qed.

Lemma update_alert_status_AlertsWellFormed (db : DB) (id : nat) (st : string)
    (notes : option string) :
  AlertsWellFormed db -> AlertsWellFormed (update_alert_status db id st notes).2.
Proof.
  intros Hdb. unfold update_alert_status.
  destruct (parse_status st) as [st'|]; [|exact Hdb].
  destruct (List.find _ (alerts db)) as [a0|]; [|exact Hdb].
  intros a Ha. simpl in Ha. apply in_map_iff in Ha as (b & <- & Hb).
  destruct (Nat.eqb (alert_id b) id); [|apply Hdb, Hb].
  apply (Hdb b Hb).
Qed.

(** C6: every stored alert has one of the seven rule types and an integer
    severity in [0, 100].  The type names form exactly the seven-element
    set; every candidate of the rule engine has its severity in [0, 100];
    the empty database satisfies the invariant; and the two operations
    that write the alerts table, a replay (which runs the persistence unit
    of every point) and [update_alert_status], preserve it.  Every alert a
    replay adds is [alert_of_candidate] of a rule-engine candidate, so its
    type is a [RuleType]. *)
Theorem alerts_closed_types (distance_m : AisPoint -> AisPoint -> Q) (cfg : Config)
    (rejects : Rejects) :
  (forall t : string, (exists r : RuleType, rule_type_str r = t) <-> In t alert_type_names) /\
  List.NoDup alert_type_names /\ length alert_type_names = 7%nat /\
  (forall prev curr c, In c (evaluate_rules distance_m cfg prev curr) ->
     0 <= c_severity c <= 100) /\
  AlertsWellFormed empty_db /\
  (forall db s ps, AlertsWellFormed db ->
     AlertsWellFormed (replay distance_m cfg rejects db s ps).1) /\
  (forall db id st notes, AlertsWellFormed db ->
     AlertsWellFormed (update_alert_status db id st notes).2) /\
  (forall db s ps, exists l,
     alerts (replay distance_m cfg rejects db s ps).1 = (alerts db ++ l)%list /\
     forall a, In a l -> exists n prev curr c,
       In c (evaluate_rules distance_m cfg prev curr) /\ a = alert_of_candidate n c).
Proof.
  split; [|split; [|split; [|split; [|split; [|split; [|split]]]]]].
  - intro t. split.
    + intros (r & <-). apply rule_type_str_closed.
    + unfold alert_type_names. simpl.
      intros [H|[H|[H|[H|[H|[H|[H|[]]]]]]]]; subst t;
        [exists TELEPORT|exists TELEPORT_T2|exists POSITION_INVALID|exists TURN_RATE
        |exists TURN_RATE_T2|exists ACCELERATION|exists HEADING_COG_CONSISTENCY];
        reflexivity.
  - unfold alert_type_names. repeat constructor; simpl; intuition discriminate.
  - reflexivity.
  - intros prev curr c Hc. exact (evaluate_rules_range _ _ _ _ _ Hc).
  - intros a [].
  - intros db s ps. apply replay_AlertsWellFormed.
  - intros db id st notes. apply update_alert_status_AlertsWellFormed.
  - intros db s ps. apply replay_appended.
Qed.

Lemma parse_status_some (st : string) :
  (exists v, parse_status st = Some v) <-> In st ["new"; "reviewed"; "resolved"; "false_positive"].
Proof.
  unfold parse_status. split.
  - intros (v & Hv).
    destruct (String.eqb_spec st "new"); [left; congruence|].
    destruct (String.eqb_spec st "reviewed"); [right; left; congruence|].
    destruct (String.eqb_spec st "resolved"); [right; right; left; congruence|].
    destruct (String.eqb_spec st "false_positive"); [right; right; right; left; congruence|].
    discriminate.
  - simpl. intros [<-|[<-|[<-|[<-|[]]]]]; eexists; reflexivity.
Qed.

Lemma find_none_forall {A} (f : A -> bool) (l : list A) :
  List.find f l = None -> forall x, In x l -> f x = false.
Proof.
  induction l as [|y l IH]; simpl; [tauto|].
  destruct (f y) eqn:Ey; [discriminate|].
  intros H x [<-|Hx]; [exact Ey | apply IH; assumption].
Qed.

Lemma replay_alerts_new (distance_m : AisPoint -> AisPoint -> Q) (cfg : Config)
    (rejects : Rejects) (db : DB) (s : Session) (ps : list AisPoint) :
  exists l, alerts (replay distance_m cfg rejects db s ps).1 = (alerts db ++ l)%list /\
    forall a, In a l -> a_status a = status_new /\ a_notes a = None.
Proof.
  destruct (replay_appended distance_m cfg rejects ps db s) as (l & E & Hl).
  exists l. split; [exact E|].
  intros a Ha. destruct (Hl a Ha) as (n & prev & curr & c & _ & ->). split; reflexivity.
Qed.

(** C7: [update_alert_status] with a status string other than the four
    accepted ones ([new], [reviewed], [resolved], [false_positive]) is
    rejected with the state unchanged.  With an accepted status and an
    existing id, every alert of that id changes only in its status and
    notes, every other alert and every other table is unchanged; an
    unknown id is reported and nothing changes.  Every alert is created
    with status [new] and no notes. *)
Theorem update_alert_status_contract :
  (forall st, (exists v, parse_status st = Some v) <->
              In st ["new"; "reviewed"; "resolved"; "false_positive"]) /\
  (forall db id st notes, parse_status st = None ->
     update_alert_status db id st notes = (inl InvalidStatus, db)) /\
  (forall db id st notes v, parse_status st = Some v ->
     let (r, db') := update_alert_status db id st notes in
     vessels_latest db' = vessels_latest db /\
     vessel_positions db' = vessel_positions db /\
     alert_cooldowns db' = alert_cooldowns db /\
     length (alerts db') = length (alerts db) /\
     (forall i a, alerts db !! i = Some a -> exists a', alerts db' !! i = Some a' /\
        (if Nat.eqb (alert_id a) id then ReviewUpdate v notes a a' else a' = a)) /\
     match r with
     | inr a' => exists a, In a (alerts db) /\ alert_id a = id /\ ReviewUpdate v notes a a'
     | inl e => e = AlertNotFound /\ db' = db /\
                forall a, In a (alerts db) -> alert_id a <> id
     end) /\
  (forall n c, a_status (alert_of_candidate n c) = status_new /\
               a_notes (alert_of_candidate n c) = None) /\
  (forall distance_m cfg rejects db s ps,
     exists l, alerts (replay distance_m cfg rejects db s ps).1 = (alerts db ++ l)%list /\
     forall a, In a l -> a_status a = status_new /\ a_notes a = None).
Proof.
  split; [exact parse_status_some|].
  split; [intros db id st notes H; unfold update_alert_status; rewrite H; reflexivity|].
  split; [|split; [intros n c; split; reflexivity | exact replay_alerts_new]].
  intros db id st notes v Hv. unfold update_alert_status. rewrite Hv.
  destruct (List.find (fun a => Nat.eqb (alert_id a) id) (alerts db)) as [a0|] eqn:Ef.
  - cbn. split; [reflexivity|]. split; [reflexivity|]. split; [reflexivity|].
    split; [apply length_map|]. split.
    + intros i a Ha. eexists. rewrite list_lookup_fmap, Ha. split; [reflexivity|].
      destruct (Nat.eqb (alert_id a) id); [|reflexivity].
      repeat split; reflexivity.
    + apply List.find_some in Ef as [Hin Hid]. apply Nat.eqb_eq in Hid.
      exists a0. split; [exact Hin|]. split; [exact Hid|]. repeat split; reflexivity.
  - split; [reflexivity|]. split; [reflexivity|]. split; [reflexivity|].
    split; [reflexivity|]. split.
    + intros i a Ha. exists a. split; [exact Ha|].
      pose proof (find_none_forall _ _ Ef a (proj1 (list_elem_of_In _ _) (list_elem_of_lookup_2 _ _ _ Ha))) as Hf.
      simpl in Hf. rewrite Hf. reflexivity.
    + split; [reflexivity|]. split; [reflexivity|].
      intros a Ha Hid. pose proof (find_none_forall _ _ Ef a Ha) as Hf. simpl in Hf.
      apply Nat.eqb_neq in Hf. contradiction.
Qed.

Lemma speedup_valid_finite (s : Q) : speedup_valid (Finite s) = true <-> 1#10 <= s.
Proof. simpl. apply Qle_bool_iff. Qed.

Lemma start_replay_bad_speedup (d : Driver) (path_ok : bool) (s : Q) (us : bool) (bs : Z) :
  s < 1#10 -> start_replay d path_ok (Finite s) us bs = (StartRejected BadSpeedup, d).
Proof.
  intro Hs. unfold start_replay.
  destruct (speedup_valid (Finite s)) eqn:Hv; [|reflexivity].
  apply speedup_valid_finite in Hv. lra.
Qed.

Lemma no_sleep_bound (s : Q) (ts ref_ts : Z) (now ref_wall : Q) :
  ref_wall < now -> 1#10 <= s ->
  inject_Z (ts - ref_ts) / (now - ref_wall) <= s ->
  pacing_sleeps (Finite s) ts ref_ts now ref_wall = false.
Proof.
  intros Hw Hs Hb. unfold pacing_sleeps, pacing_delay, Qlt_bool.
  set (X := inject_Z (ts - ref_ts)). fold X in Hb.
  set (w := now - ref_wall) in *.
  assert (Hw' : 0 < w) by (unfold w; lra).
  assert (HX : X <= s * w).
  { assert (E : X / w * w == X) by (field; intro E; rewrite E in Hw'; discriminate).
    rewrite <- E. apply Qmult_le_compat_r; [exact Hb | lra]. }
  assert (HY : X / s <= w).
  { apply Qle_shift_div_r; [lra|]. rewrite (Qmult_comm w s). exact HX. }
  apply negb_false_iff, Qle_bool_iff. lra.
Qed.

(** C8: [start_replay] rejects a finite speedup below 0.1, in particular
    0, with [BadSpeedup] and returns the driver unchanged (no session is
    started); a speedup of at least 0.1, or an infinite one, is never
    rejected for its speedup, and from an idle driver with a readable file
    and a batch size in [1, 10000] it starts the session.  An infinite
    speedup never sleeps (the wall clock does not run backwards), and a
    finite speedup at least the ratio of elapsed data time to elapsed wall
    time does not sleep either. *)
Theorem start_replay_speedup :
  (forall s, speedup_valid (Finite s) = true <-> 1#10 <= s) /\
  (forall d path_ok s us bs, s < 1#10 ->
     start_replay d path_ok (Finite s) us bs = (StartRejected BadSpeedup, d)) /\
  (forall d path_ok us bs,
     start_replay d path_ok (Finite 0) us bs = (StartRejected BadSpeedup, d)) /\
  (forall d path_ok sp us bs, speedup_valid sp = true ->
     fst (start_replay d path_ok sp us bs) <> StartRejected BadSpeedup) /\
  (forall d sp us bs, speedup_valid sp = true -> phase d = Idle -> (1 <= bs <= 10000)%Z ->
     start_replay d true sp us bs =
       (Started, {| phase := Running; d_session := new_session; d_stop_requested := false |})) /\
  (forall ts ref_ts now ref_wall, ref_wall <= now ->
     pacing_sleeps Infinite ts ref_ts now ref_wall = false) /\
  (forall s ts ref_ts now ref_wall, ref_wall < now -> 1#10 <= s ->
     inject_Z (ts - ref_ts) / (now - ref_wall) <= s ->
     pacing_sleeps (Finite s) ts ref_ts now ref_wall = false).
Proof.
  split; [exact speedup_valid_finite|].
  split; [exact start_replay_bad_speedup|].
  split; [intros; apply start_replay_bad_speedup; reflexivity|].
  split.
  - intros d path_ok sp us bs Hv. unfold start_replay. rewrite Hv. simpl.
    destruct ((1 <=? bs)%Z && (bs <=? 10000)%Z); simpl; [|discriminate].
    destruct (phase d); [destruct path_ok|..]; simpl; discriminate.
  - split.
    + intros d sp us bs Hv Hi Hb. unfold start_replay. rewrite Hv, Hi. simpl.
      replace ((1 <=? bs)%Z && (bs <=? 10000)%Z) with true; [reflexivity|].
      symmetry. apply andb_true_iff. split; apply Z.leb_le; lia.
    + split; [|exact no_sleep_bound].
      intros ts ref_ts now ref_wall H. unfold pacing_sleeps, pacing_delay, Qlt_bool.
      apply negb_false_iff, Qle_bool_iff. lra.
Qed.

Section TeleportFacts.

Variable distance_m : AisPoint -> AisPoint -> Q.
Variable cfg : Config.

Lemma teleport_threshold_spec (dt : Z) (th : Q) :
  teleport_threshold cfg dt = Some th <->
  ((0 < dt <= 120)%Z /\ th = teleport_speed_knots_short cfg) \/
  ((120 < dt <= 1800)%Z /\ th = teleport_speed_knots_medium cfg).
Proof.
  unfold teleport_threshold.
  destruct ((0 <? dt) && (dt <=? 120))%Z eqn:Ea.
  - apply andb_true_iff in Ea as [Ea Eb]. apply Z.ltb_lt in Ea. apply Z.leb_le in Eb.
    split; [intros [=<-]; left; split; [lia|reflexivity]|].
    intros [[_ ->]|[? _]]; [reflexivity|lia].
  - assert (Ha : ~ (0 < dt <= 120)%Z).
    { apply andb_false_iff in Ea. rewrite Z.ltb_ge, Z.leb_gt in Ea. lia. }
    destruct ((120 <? dt) && (dt <=? 1800))%Z eqn:Eb.
    + apply andb_true_iff in Eb as [Eb Ec]. apply Z.ltb_lt in Eb. apply Z.leb_le in Ec.
      split; [intros [=<-]; right; split; [lia|reflexivity]|].
      intros [[? _]|[_ ->]]; [lia|reflexivity].
    + assert (Hb : ~ (120 < dt <= 1800)%Z).
      { apply andb_false_iff in Eb. rewrite Z.ltb_ge, Z.leb_gt in Eb. lia. }
      split; [discriminate|]. intros [[? _]|[? _]]; contradiction.
Qed.

Lemma rule_teleport_some (prev curr : AisPoint) (c : Candidate) :
  rule_teleport distance_m cfg prev curr = Some c <->
  exists v th, implied_speed_kn distance_m prev curr = Some v /\
    teleport_threshold cfg (dt_sec prev curr) = Some th /\ th <= v /\
    c = mk_candidate TELEPORT curr (clamp (40 + (2#5) * (v - th)) 70 100)
          (teleport_tier (dt_sec prev curr)) (teleport_evidence distance_m prev curr v).
Proof.
  unfold rule_teleport. cbn zeta.
  destruct (implied_speed_kn distance_m prev curr) as [v|];
    [|split; [discriminate|intros (v & th & H & _); discriminate]].
  destruct (teleport_threshold cfg (dt_sec prev curr)) as [th|];
    [|split; [discriminate|intros (v' & th & _ & H & _); discriminate]].
  destruct (Qle_bool th v) eqn:E.
  - apply Qle_bool_iff in E. split.
    + intros [=<-]. exists v, th. auto.
    + intros (v' & th' & [=<-] & [=<-] & _ & ->). reflexivity.
  - apply Qle_bool_false in E. split; [discriminate|].
    intros (v' & th' & [=<-] & [=<-] & H & _). lra.
Qed.

End TeleportFacts.

Lemma clamp_hi (x lo hi : Q) : lo < hi -> hi <= x -> clamp x lo hi = hi.
Proof.
  intros H1 H2. unfold clamp.
  destruct (Qle_bool x lo) eqn:E; [apply Qle_bool_iff in E; lra|].
  destruct (Qle_bool hi x) eqn:E'; [reflexivity|]. apply Qle_bool_false in E'. lra.
Qed.

Lemma replay_step_eq (distance_m : AisPoint -> AisPoint -> Q) (cfg : Config)
    (rejects : Rejects) (db : DB) (s : Session) (p : AisPoint) :
  replay_step distance_m cfg rejects (db, s) p =
  ((ingest_point cfg rejects db p
      (evaluate_rules distance_m cfg
         (previous (push (track_window_size cfg) (track s) p).2) p)).1,
   {| track := (push (track_window_size cfg) (track s) p).1;
      s_processed := S (s_processed s);
      s_skipped :=
        match (ingest_point cfg rejects db p
                 (evaluate_rules distance_m cfg
                    (previous (push (track_window_size cfg) (track s) p).2) p)).2 with
        | Skipped => S (s_skipped s)
        | Persisted _ => s_skipped s
        end;
      s_last_ts := Some (timestamp p) |}).
Proof.
  unfold replay_step. destruct (push (track_window_size cfg) (track s) p) as [tr w].
  destruct (ingest_point _ _ _ _ _) as [db' out]. reflexivity.
Qed.

Section S1.

Variable distance_m : AisPoint -> AisPoint -> Q.

(** The haversine distance of the two S1 rows is about 170.4 km; any
    distance of at least 160 km gives the same outcome. *)
Hypothesis Hd : 160000 <= distance_m s1_p1 s1_p2.

Lemma s1_implied :
  implied_speed_kn distance_m s1_p1 s1_p2 = Some (distance_m s1_p1 s1_p2 / 60 * knots_per_mps).
Proof. reflexivity. Qed.

Lemma s1_fast : 5000 < distance_m s1_p1 s1_p2 / 60 * knots_per_mps.
Proof.
  unfold knots_per_mps.
  assert (E : distance_m s1_p1 s1_p2 / 60 * (19438445 # 10000000)
              == distance_m s1_p1 s1_p2 * (19438445 # 600000000)) by field.
  rewrite E. lra.
Qed.

Lemma s1_turn_rate : rule_turn_rate distance_m default_config s1_p1 s1_p2 = None.
Proof. vm_compute. reflexivity. Qed.

Lemma s1_turn_rate_t2 : rule_turn_rate_t2 distance_m default_config s1_p1 s1_p2 = None.
Proof. vm_compute. reflexivity. Qed.

Lemma s1_heading_cog : rule_heading_cog distance_m s1_p1 s1_p2 = None.
Proof. vm_compute. reflexivity. Qed.

Lemma s1_position_invalid : rule_position_invalid distance_m (Some s1_p1) s1_p2 = None.
Proof.
  unfold rule_position_invalid. simpl.
  replace (Qlt_bool (distance_m s1_p1 s1_p2) 1) with false; [reflexivity|].
  symmetry. unfold Qlt_bool. apply negb_false_iff, Qle_bool_iff. lra.
Qed.

(** The reported speed 12 kn against the implied speed of thousands of
    knots also fires ACCELERATION, at its maximum severity 85. *)
Lemma s1_acceleration : exists ev,
  rule_acceleration distance_m s1_p1 s1_p2 = Some (mk_candidate ACCELERATION s1_p2 85 "" ev).
Proof.
  unfold rule_acceleration. rewrite s1_implied.
  generalize s1_fast. generalize (distance_m s1_p1 s1_p2 / 60 * knots_per_mps) as v.
  intros v Hv.
  cbn -[Qabs Qle_bool Qminus Qplus clamp Qdiv Qmult].
  assert (Ha : v - 12 <= Qabs (12 - v)).
  { pose proof (Qle_Qabs (- (12 - v))) as H. rewrite Qabs_opp in H. lra. }
  replace (Qle_bool 15 (Qabs (12 - v))) with true by (symmetry; apply Qle_bool_iff; lra).
  change (dt_sec s1_p1 s1_p2) with 60%Z. cbn -[Qabs Qle_bool Qminus Qplus clamp Qdiv Qmult].
  rewrite (clamp_hi _ 25 85) by lra.
  eexists. reflexivity.
Qed.

Lemma s1_teleport : rule_teleport distance_m default_config s1_p1 s1_p2 =
  Some (mk_candidate TELEPORT s1_p2 100 "short"
          (teleport_evidence distance_m s1_p1 s1_p2
             (distance_m s1_p1 s1_p2 / 60 * knots_per_mps))).
Proof.
  apply rule_teleport_some. exists (distance_m s1_p1 s1_p2 / 60 * knots_per_mps), 60.
  pose proof s1_fast as Hv.
  split; [exact s1_implied|]. split; [reflexivity|]. split; [lra|].
  rewrite (clamp_hi _ 70 100) by lra. reflexivity.
Qed.

Lemma s1_teleport_t2 : rule_teleport_t2 distance_m default_config s1_p1 s1_p2 = None.
Proof. unfold rule_teleport_t2. rewrite s1_teleport. reflexivity. Qed.

Lemma s1_rules : exists evA,
  evaluate_rules distance_m default_config (Some s1_p1) s1_p2 =
  [mk_candidate TELEPORT s1_p2 100 "short"
     (teleport_evidence distance_m s1_p1 s1_p2 (distance_m s1_p1 s1_p2 / 60 * knots_per_mps));
   mk_candidate ACCELERATION s1_p2 85 "" evA].
Proof.
  destruct s1_acceleration as (evA & HA). exists evA.
  unfold evaluate_rules.
  rewrite s1_teleport, s1_teleport_t2, s1_position_invalid, s1_turn_rate, s1_turn_rate_t2,
    HA, s1_heading_cog.
  reflexivity.
Qed.

Lemma s1_first : evaluate_rules distance_m default_config None s1_p1 = [].
Proof. vm_compute. reflexivity. Qed.

(** Replaying the two S1 rows into an empty database stores a TELEPORT
    alert (tier short, severity 100) and an ACCELERATION alert. *)
Lemma s1_replay : exists evA,
  alerts (replay distance_m default_config no_failure empty_db new_session [s1_p1; s1_p2]).1 =
  [alert_of_candidate 0 (mk_candidate TELEPORT s1_p2 100 "short"
     (teleport_evidence distance_m s1_p1 s1_p2 (distance_m s1_p1 s1_p2 / 60 * knots_per_mps)));
   alert_of_candidate 1 (mk_candidate ACCELERATION s1_p2 85 "" evA)].
Proof.
  destruct s1_rules as (evA & HR). exists evA.
  unfold replay. cbn [fold_left]. rewrite !replay_step_eq. cbn [track fst].
  change (previous (push (track_window_size default_config) (track new_session) s1_p1).2)
    with (@None AisPoint).
  change (previous (push (track_window_size default_config)
            (push (track_window_size default_config) (track new_session) s1_p1).1 s1_p2).2)
    with (Some s1_p1).
  rewrite s1_first, HR.
  generalize (teleport_evidence distance_m s1_p1 s1_p2
                (distance_m s1_p1 s1_p2 / 60 * knots_per_mps)).
  generalize evA. intros e1 e2.
  vm_compute. reflexivity.
Qed.

End S1.

(** C2: with the default thresholds (60 kn short, 100 kn medium), the
    TELEPORT rule fires on a pair of consecutive points exactly when the
    implied speed is defined and [dt_sec] is in (0, 120] with speed at
    least 60, or in (120, 1800] with speed at least 100; a fired candidate
    has type TELEPORT, tier "short" or "medium" by the gap, severity
    [clamp(40 + 0.4 (v - threshold), 70, 100)] and the implied speed in
    its evidence.  For the scenario-S1 rows (dt = 60 s, about 170 km),
    replaying them into an empty database stores exactly one TELEPORT
    alert, of tier "short", severity 100 and implied speed above 5000 kn. *)
Theorem teleport_rule (distance_m : AisPoint -> AisPoint -> Q) :
  (forall prev curr,
     (exists c, rule_teleport distance_m default_config prev curr = Some c) <->
     exists v, implied_speed_kn distance_m prev curr = Some v /\
       (((0 < dt_sec prev curr <= 120)%Z /\ 60 <= v) \/
        ((120 < dt_sec prev curr <= 1800)%Z /\ 100 <= v))) /\
  (forall prev curr c, rule_teleport distance_m default_config prev curr = Some c ->
     exists v, implied_speed_kn distance_m prev curr = Some v /\
       c_type c = TELEPORT /\
       c_label c = (if (dt_sec prev curr <=? 120)%Z then "short" else "medium") /\
       c_severity c =
         clamp (40 + (2#5) * (v - (if (dt_sec prev curr <=? 120)%Z then 60 else 100))) 70 100 /\
       In ("implied_speed_kn", v) (c_evidence c)) /\
  (160000 <= distance_m s1_p1 s1_p2 ->
     exists a,
       List.filter (fun a => String.eqb (rule_type_str (a_type a)) "TELEPORT")
         (alerts (replay distance_m default_config no_failure empty_db new_session
                    [s1_p1; s1_p2]).1) = [a] /\
       a_label a = "short" /\ a_severity a = 100%Z /\
       exists v, In ("implied_speed_kn", v) (a_evidence a) /\ 5000 < v).
Proof.
  split; [|split].
  - intros prev curr. split.
    + intros (c & Hc). apply rule_teleport_some in Hc as (v & th & Hv & Hth & Hle & _).
      exists v. split; [exact Hv|].
      apply teleport_threshold_spec in Hth as [[Hdt ->]|[Hdt ->]]; [left|right]; split; auto.
    + intros (v & Hv & Hr).
      destruct Hr as [[Hdt Hle]|[Hdt Hle]]; eexists; apply rule_teleport_some.
      * exists v, 60. split; [exact Hv|]. split; [|split; [exact Hle|reflexivity]].
        apply teleport_threshold_spec. left. split; [exact Hdt|reflexivity].
      * exists v, 100. split; [exact Hv|]. split; [|split; [exact Hle|reflexivity]].
        apply teleport_threshold_spec. right. split; [exact Hdt|reflexivity].
  - intros prev curr c Hc.
    apply rule_teleport_some in Hc as (v & th & Hv & Hth & Hle & ->).
    exists v. split; [exact Hv|]. unfold teleport_tier.
    apply teleport_threshold_spec in Hth as [[Hdt ->]|[Hdt ->]].
    + replace (dt_sec prev curr <=? 120)%Z with true by (symmetry; apply Z.leb_le; lia).
      split; [reflexivity|]. split; [reflexivity|]. split; [reflexivity|].
      simpl. tauto.
    + replace (dt_sec prev curr <=? 120)%Z with false by (symmetry; apply Z.leb_gt; lia).
      split; [reflexivity|]. split; [reflexivity|]. split; [reflexivity|].
      simpl. tauto.
  - intros Hd. destruct (s1_replay distance_m Hd) as (evA & E). rewrite E.
    eexists. split; [reflexivity|]. split; [reflexivity|]. split; [reflexivity|].
    exists (distance_m s1_p1 s1_p2 / 60 * knots_per_mps). split.
    + simpl. tauto.
    + exact (s1_fast distance_m Hd).
Qed.

(** A distance function that gives the S1 rows their haversine distance
    (170361 m) satisfies the hypothesis of the scenario part of C2. *)
Lemma teleport_rule_witness :
  160000 <= (fun _ _ : AisPoint => 170361) s1_p1 s1_p2 /\
  exists a,
    List.filter (fun a => String.eqb (rule_type_str (a_type a)) "TELEPORT")
      (alerts (replay (fun _ _ => 170361) default_config no_failure empty_db new_session
                 [s1_p1; s1_p2]).1) = [a] /\
    a_label a = "short" /\ a_severity a = 100%Z /\
    exists v, In ("implied_speed_kn", v) (a_evidence a) /\ 5000 < v.
Proof.
  split.
  - vm_compute. discriminate.
  - apply (proj2 (proj2 (teleport_rule (fun _ _ => 170361)))). vm_compute. discriminate.
Defined.

(** The hypothesis of C1 holds for an idle driver started on a readable
    file: the status properties then hold for the S1 rows. *)
Lemma replay_status_fields_witness :
  start_replay initial_driver true (Finite 1) false 100 =
    (Started, {| phase := Running; d_session := new_session; d_stop_requested := false |}) /\
  (forall d1, json_keys (replay_status_json (replay_status d1))
              = ["running"; "processed"; "last_timestamp"; "stop_requested"]) /\
  (forall k, (k <= 2)%nat ->
     let st := replay_status (fold_left (driver_step (fun _ _ => 170361) default_config no_failure)
                 (take k [s1_p1; s1_p2])
                 (empty_db, {| phase := Running; d_session := new_session;
                               d_stop_requested := false |})).2 in
     running st = true /\ processed st = k) /\
  (let st := replay_status (run_session (fun _ _ => 170361) default_config no_failure empty_db
               {| phase := Running; d_session := new_session; d_stop_requested := false |}
               [s1_p1; s1_p2]).2 in
   running st = false /\ processed st = 2%nat).
Proof.
  split; [reflexivity|].
  exact (replay_status_fields (fun _ _ => 170361) default_config no_failure empty_db
           initial_driver
           {| phase := Running; d_session := new_session; d_stop_requested := false |}
           true (Finite 1) false 100 [s1_p1; s1_p2] eq_refl).
Defined.

(** The hypothesis of C3 holds for the default configuration (cooldown
    300 s). *)
Lemma cooldown_spacing_witness :
  (0 <= alert_cooldown_sec default_config)%Z /\
  (forall rejects s ps a1 a2,
     In a1 (alerts (replay (fun _ _ => 170361) default_config rejects empty_db s ps).1) ->
     In a2 (alerts (replay (fun _ _ => 170361) default_config rejects empty_db s ps).1) ->
     a_mmsi a1 = a_mmsi a2 -> a_type a1 = a_type a2 ->
     (a_timestamp a1 < a_timestamp a2)%Z ->
     (alert_cooldown_sec default_config <= a_timestamp a2 - a_timestamp a1)%Z).
Proof.
  assert (H : (0 <= alert_cooldown_sec default_config)%Z) by (simpl; lia).
  split; [exact H|].
  exact (proj2 (proj2 (proj2 (cooldown_spacing (fun _ _ => 170361) default_config H)))).
Defined.

(* ===================================================================== *)
(** ** Frontend queries, file checks and views *)
(* ===================================================================== *)

Lemma has_byte_app (b : ascii) (s t : string) :
  has_byte b (s ++ t) = has_byte b s || has_byte b t.
Proof. induction s as [|c s IH]; simpl; [reflexivity|]. rewrite IH, orb_assoc. reflexivity. Qed.


Lemma urlencode_cons (c : ascii) (s : string) :
  urlencode (String c s) = (enc_byte c ++ urlencode s)%string.
Proof. reflexivity. Qed.

Lemma form_decode_enc_byte (c : ascii) (t : string) :
  form_decode (enc_byte c ++ t) = String c (form_decode t).
Proof. destruct c as [[] [] [] [] [] [] [] []]; reflexivity. Qed.

Lemma enc_byte_safe (c : ascii) :
  has_byte "&" (enc_byte c) = false /\ has_byte "=" (enc_byte c) = false /\
  has_byte "?" (enc_byte c) = false /\ has_byte "#" (enc_byte c) = false /\
  has_byte " " (enc_byte c) = false.
Proof. destruct c as [[] [] [] [] [] [] [] []]; vm_compute; auto. Qed.

Lemma form_decode_urlencode (s : string) : form_decode (urlencode s) = s.
Proof.
  induction s as [|c s IH]; [reflexivity|].
  rewrite urlencode_cons, form_decode_enc_byte, IH. reflexivity.
Qed.

Lemma urlencode_safe (s : string) :
  has_byte "&" (urlencode s) = false /\ has_byte "=" (urlencode s) = false /\
  has_byte "?" (urlencode s) = false /\ has_byte "#" (urlencode s) = false /\
  has_byte " " (urlencode s) = false.
Proof.
  induction s as [|c s IH]; [vm_compute; auto|].
  rewrite urlencode_cons, !has_byte_app.
  destruct (enc_byte_safe c) as (H1 & H2 & H3 & H4 & H5).
  destruct IH as (I1 & I2 & I3 & I4 & I5).
  rewrite H1, H2, H3, H4, H5, I1, I2, I3, I4, I5. auto.
Qed.

Lemma split_on_app (sep : ascii) (a b : string) :
  has_byte sep a = false ->
  split_on sep (a ++ String sep b) = a :: split_on sep b.
Proof.
  induction a as [|c a IH]; simpl; intro H.
  - rewrite Ascii.eqb_refl. reflexivity.
  - apply orb_false_iff in H as [Hc Ha]. rewrite Hc, (IH Ha). reflexivity.
Qed.

Lemma split_on_no (sep : ascii) (a : string) :
  has_byte sep a = false -> split_on sep a = [a].
Proof.
  induction a as [|c a IH]; simpl; intro H; [reflexivity|].
  apply orb_false_iff in H as [Hc Ha]. rewrite Hc, (IH Ha). reflexivity.
Qed.

Lemma split_on_concat (sep : ascii) (x : string) (xs : list string) :
  Forall (fun y => has_byte sep y = false) (x :: xs) ->
  split_on sep (String.concat (String sep EmptyString) (x :: xs)) = x :: xs.
Proof.
  revert x. induction xs as [|y xs IH]; intros x H.
  - simpl. apply split_on_no. inversion H; assumption.
  - inversion H as [|? ? Hx Hr]; subst.
    change (String.concat (String sep EmptyString) (x :: y :: xs))
      with (x ++ String sep (String.concat (String sep EmptyString) (y :: xs)))%string.
    rewrite split_on_app by exact Hx. rewrite IH by exact Hr. reflexivity.
Qed.

Lemma break_at_app (sep : ascii) (a b : string) :
  has_byte sep a = false -> break_at sep (a ++ String sep b) = (a, Some b).
Proof.
  induction a as [|c a IH]; simpl; intro H.
  - rewrite Ascii.eqb_refl. reflexivity.
  - apply orb_false_iff in H as [Hc Ha]. rewrite Hc, (IH Ha). reflexivity.
Qed.

Lemma pairs_no_amp (ps : list (string * string)) :
  Forall (fun y => has_byte "&" y = false)
    (map (fun '(k, v) => (urlencode k ++ "=" ++ urlencode v)%string) ps).
Proof.
  induction ps as [|[k v] ps IH]; simpl; constructor; [|exact IH].
  rewrite !has_byte_app. simpl.
  destruct (urlencode_safe k) as (H1 & _). destruct (urlencode_safe v) as (H2 & _).
  rewrite H1, H2. reflexivity.
Qed.

Lemma split_on_concat_ne (sep : ascii) (l : list string) :
  l <> [] -> Forall (fun y => has_byte sep y = false) l ->
  split_on sep (String.concat (String sep EmptyString) l) = l.
Proof. destruct l as [|x xs]; [congruence|]. intros _. apply split_on_concat. Qed.

Lemma parse_serialize (ps : list (string * string)) : parse_query (serialize ps) = ps.
Proof.
  unfold parse_query, serialize.
  destruct ps as [|[k v] ps]; [reflexivity|].
  rewrite split_on_concat_ne by (discriminate || apply pairs_no_amp).
  generalize ((k, v) :: ps) as l. intro l.
  induction l as [|[k1 v1] l IH]; [reflexivity|].
  cbn [map List.filter].
  replace (negb (urlencode k1 ++ "=" ++ urlencode v1 =? ""))%string with true
    by (destruct (urlencode k1); reflexivity).
  cbn [map]. rewrite IH. f_equal.
  change ("=" ++ urlencode v1)%string with (String "=" (urlencode v1)).
  rewrite break_at_app by apply (urlencode_safe k1).
  simpl. rewrite !form_decode_urlencode. reflexivity.
Qed.



Lemma str_app_assoc (a b c : string) : (a ++ b ++ c)%string = ((a ++ b) ++ c)%string.
Proof. induction a as [|x a IH]; [reflexivity|]. exact (f_equal (String x) IH). Qed.

Lemma serialize_nonempty ps : ps <> [] -> serialize ps <> "".
Proof.
  destruct ps as [|[k v] ps]; [congruence|]. intros _ H. unfold serialize in H.
  destruct ps; cbn in H; destruct (urlencode k); discriminate.
Qed.
Lemma serialize_nil : serialize [] = "". Proof. reflexivity. Qed.

Lemma serialize_no_hash ps : has_byte "#" (serialize ps) = false.
Proof.
  unfold serialize. destruct ps as [|[k v] ps]; [reflexivity|].
  revert k v. induction ps as [|[k' v'] ps IH]; intros k v.
  - simpl. rewrite !has_byte_app. simpl.
    destruct (urlencode_safe k) as (_&_&_&H1&_); destruct (urlencode_safe v) as (_&_&_&H2&_).
    rewrite H1, H2. reflexivity.
  - change (String.concat "&" (map (λ '(k0, v0), urlencode k0 ++ "=" ++ urlencode v0) ((k, v) :: (k', v') :: ps)))
      with ((urlencode k ++ "=" ++ urlencode v) ++ "&" ++ String.concat "&" (map (λ '(k0, v0), urlencode k0 ++ "=" ++ urlencode v0) ((k', v') :: ps))).
    rewrite !has_byte_app, IH. simpl.
    destruct (urlencode_safe k) as (_&_&_&H1&_); destruct (urlencode_safe v) as (_&_&_&H2&_).
    rewrite H1, H2. reflexivity.
Qed.

Lemma query_suffix_parse (ps : list (string * string)) :
  (ps = [] /\ query_suffix (serialize ps) = "") \/
  (exists q, query_suffix (serialize ps) = "?" ++ q /\ has_byte "#" q = false /\
             parse_query q = ps).
Proof.
  destruct ps as [|p ps]; [left; split; reflexivity|right].
  exists (serialize (p :: ps)). split; [|split; [apply serialize_no_hash|apply parse_serialize]].
  unfold query_suffix. destruct (String.eqb_spec (serialize (p :: ps)) "") as [E|_]; [|reflexivity].
  exfalso. exact (serialize_nonempty (p :: ps) ltac:(discriminate) E).
Qed.


(** X2: the query of startReplay parses back to exactly path, speedup,
    use_streaming and batch_size, in that order, whatever characters the
    path holds ([&], [=], [#], spaces included). *)
Theorem startReplay_query (nts : Q -> string) (path : string) (speedup : Q)
    (useStreaming : bool) (batchSize : Q) :
  exists q, startReplay_endpoint nts path speedup useStreaming batchSize = "/v1/replay/start?" ++ q /\
    has_byte "#" q = false /\
    parse_query q = [("path", path); ("speedup", nts speedup);
                     ("use_streaming", if useStreaming then "true" else "false");
                     ("batch_size", nts batchSize)].
Proof.
  eexists. split; [reflexivity|]. split; [apply serialize_no_hash|].
  rewrite parse_serialize. reflexivity.
Qed.

(** X3: the track query starts with [limit]; [start_time] and
    [end_time] appear, with their value, exactly when they are given and
    non-empty. *)
Theorem getVesselTrack_query (nts : Q -> string) (mmsi : string)
    (startTime endTime : option string) (limit : Q) :
  exists q, getVesselTrack_endpoint nts mmsi startTime endTime limit =
              "/v1/vessels/" ++ mmsi ++ "/track?" ++ q /\
    has_byte "#" q = false /\
    head (parse_query q) = Some ("limit", nts limit) /\
    (forall s, In ("start_time", s) (parse_query q) <-> startTime = Some s /\ s <> "") /\
    (forall s, In ("end_time", s) (parse_query q) <-> endTime = Some s /\ s <> "").
Proof.
  eexists. split; [reflexivity|]. split; [apply serialize_no_hash|].
  rewrite parse_serialize. unfold getVesselTrack_params, truthy_str.
  split; [reflexivity|].
  split; intro s.
  - destruct startTime as [x|], endTime as [y|];
      try destruct (String.eqb_spec x ""); try destruct (String.eqb_spec y ""); subst; simpl;
      split; intuition congruence.
  - destruct startTime as [x|], endTime as [y|];
      try destruct (String.eqb_spec x ""); try destruct (String.eqb_spec y ""); subst; simpl;
      split; intuition congruence.
Qed.

(** X4: AlertsPanel requests [/v1/alerts?] with [limit=100] first;
    [alert_type] is sent exactly when a type filter is chosen, and
    [min_severity] exactly when the minimum severity is positive. *)
Theorem loadAlerts_query (nts : Q -> string) (filterType : string) (minSeverity : Q) :
  exists q, getAlerts_endpoint nts (loadAlerts_params filterType minSeverity) = "/v1/alerts?" ++ q /\
    has_byte "#" q = false /\
    head (parse_query q) = Some ("limit", nts 100) /\
    (forall s, In ("alert_type", s) (parse_query q) <-> s = filterType /\ filterType <> "") /\
    (forall s, In ("min_severity", s) (parse_query q) <-> s = nts minSeverity /\ 0 < minSeverity).
Proof.
  unfold getAlerts_endpoint.
  destruct (query_suffix_parse (query_entries nts (loadAlerts_params filterType minSeverity)))
    as [(E & _) | (q & S & H & P)].
  - exfalso. unfold loadAlerts_params in E. simpl in E. discriminate.
  - exists q. rewrite S. split; [reflexivity|]. split; [exact H|]. rewrite P.
    unfold loadAlerts_params.
    destruct (String.eqb_spec filterType ""), (Qlt_le_dec 0 minSeverity); simpl;
      (split; [reflexivity|]); split; intro s; split; intuition (try congruence; try lra).
Qed.






Lemma ends_with_spec (s t : string) : ends_with s t = true <-> exists p, s = (p ++ t)%string.
Proof.
  induction s as [|c s IH].
  - change (ends_with "" t) with (String.eqb "" t || false).
    rewrite orb_false_r. split.
    + intros H%String.eqb_eq. subst. exists "". reflexivity.
    + intros [[|x p] E]; [destruct t; [reflexivity|discriminate]|discriminate].
  - change (ends_with (String c s) t) with (String.eqb (String c s) t || ends_with s t).
    rewrite orb_true_iff, IH, String.eqb_eq. split.
    + intros [E|[p E]]; [subst; exists ""; reflexivity|subst; exists (String c p); reflexivity].
    + intros [[|x p] E]; [left; exact E|right; exists p; injection E; auto].
Qed.

Lemma ends_with_trans (s t u : string) :
  ends_with s (t ++ u) = true -> ends_with s u = true.
Proof.
  rewrite !ends_with_spec. intros [p E]. exists (p ++ t)%string. rewrite E. apply str_app_assoc.
Qed.

Lemma prefix_spec (t s : string) : String.prefix t s = true <-> exists q, s = (t ++ q)%string.
Proof.
  revert s. induction t as [|a t IH]; intros s.
  - split; [intros _; exists s; reflexivity|destruct s; reflexivity].
  - destruct s as [|b s]; simpl.
    + split; [discriminate|intros [q E]; discriminate].
    + destruct (ascii_dec a b) as [<-|Hab].
      * rewrite IH. split; intros [q E]; exists q; [rewrite E; reflexivity|injection E; auto].
      * split; [discriminate|intros [q E]; injection E; intros; congruence].
Qed.

Lemma includes_spec (s t : string) :
  includes s t = true <-> exists p q, s = (p ++ t ++ q)%string.
Proof.
  induction s as [|c s IH].
  - simpl. rewrite orb_false_r. destruct t; simpl; split.
    + intros _. exists "", "". reflexivity.
    + reflexivity.
    + discriminate.
    + intros (p & q & E). destruct p; discriminate.
  - change (includes (String c s) t) with (String.prefix t (String c s) || includes s t).
    rewrite orb_true_iff, IH. split.
    + intros [H|(p & q & E)].
      * apply prefix_spec in H. destruct H as [q E].
        exists "", q. exact E.
      * exists (String c p), q. rewrite E. reflexivity.
    + intros ([|x p] & q & E).
      * left. apply prefix_spec. exists q. exact E.
      * right. injection E as -> E. exists p, q. exact E.
Qed.

Lemma has_upper_app (a b : string) : has_upper (a ++ b) = has_upper a || has_upper b.
Proof. induction a as [|c a IH]; [reflexivity|]. simpl. rewrite IH, orb_assoc. reflexivity. Qed.

Lemma has_upper_to_lower (s : string) : has_upper (to_lower s) = false.
Proof.
  induction s as [|c s IH]; [reflexivity|]. simpl. rewrite IH, orb_false_r.
  destruct c as [[] [] [] [] [] [] [] []]; reflexivity.
Qed.

Lemma ends_with_upper (s t : string) :
  ends_with s t = true -> has_upper s = false -> has_upper t = false.
Proof.
  intros [p ->]%ends_with_spec. rewrite has_upper_app. apply orb_false_iff.
Qed.

Lemma size_check (m size : Q) :
  Qlt_bool m (size / (1024 * 1024)) = negb (Qle_bool size (m * 1048576)).
Proof.
  unfold Qlt_bool. f_equal.
  destruct (Qle_bool (size / (1024 * 1024)) m) eqn:E1, (Qle_bool size (m * 1048576)) eqn:E2;
    try reflexivity; exfalso.
  - apply Qle_bool_iff in E1. rewrite <- not_true_iff_false, Qle_bool_iff in E2. apply E2.
    assert (size == size / (1024 * 1024) * 1048576) as -> by (field; discriminate).
    apply Qmult_le_compat_r; [exact E1|discriminate].
  - rewrite <- not_true_iff_false, Qle_bool_iff in E1. apply Qle_bool_iff in E2. apply E1.
    apply Qle_shift_div_r; [reflexivity|]. exact E2.
Qed.

(** X6: with the default accepted types, validateFile accepts a file
    exactly when its lower-cased name ends in .csv, .dat or .zst and its
    size is at most maxSizeMB MiB (a file of exactly that size passes);
    the type check comes first. *)
Theorem validateFile_default_types (nts : Q -> string) (maxSizeMB : Q) (name : string) (size : Q) :
  let fileName := to_lower name in
  validateFile nts default_acceptedTypes maxSizeMB name size =
    if ends_with fileName ".csv" || ends_with fileName ".dat" || ends_with fileName ".zst" then
      (if Qle_bool size (maxSizeMB * 1048576) then None
       else Some ("File too large. Maximum size: " ++ nts maxSizeMB ++ "MB"))
    else Some "File type not supported. Accepted: .csv, .dat, .zst".
Proof.
  intros fileName. unfold validateFile. fold fileName. rewrite size_check.
  assert (Z1 : ends_with fileName ".csv.zst" = true -> ends_with fileName ".zst" = true)
    by apply (ends_with_trans _ ".csv").
  assert (Z2 : ends_with fileName ".dat.zst" = true -> ends_with fileName ".zst" = true)
    by apply (ends_with_trans _ ".dat").
  assert (Z3 : ends_with fileName ".zst.zst" = true -> ends_with fileName ".zst" = true)
    by apply (ends_with_trans _ ".zst").
  unfold hasValidExtension, default_acceptedTypes. simpl existsb.
  change (".csv" ++ ".zst") with ".csv.zst". change (".dat" ++ ".zst") with ".dat.zst".
  change (".zst" ++ ".zst") with ".zst.zst".
  destruct (ends_with fileName ".csv"), (ends_with fileName ".dat"), (ends_with fileName ".zst"),
    (ends_with fileName ".csv.zst"), (ends_with fileName ".dat.zst"), (ends_with fileName ".zst.zst");
    try (discriminate (Z1 eq_refl)); try (discriminate (Z2 eq_refl)); try (discriminate (Z3 eq_refl));
    destruct (Qle_bool size (maxSizeMB * 1048576)); reflexivity.
Qed.

(** X7: a file whose lower-cased name ends in .csv.zst or .dat.zst
    passes the type check for every non-empty list of accepted types
    (and only the size decides); an empty list rejects even these. *)
Theorem validateFile_compound_zst (nts : Q -> string) (acceptedTypes : list string)
    (maxSizeMB : Q) (name : string) (size : Q) :
  (ends_with (to_lower name) ".csv.zst" || ends_with (to_lower name) ".dat.zst") = true ->
  validateFile nts acceptedTypes maxSizeMB name size =
    match acceptedTypes with
    | [] => Some "File type not supported. Accepted: "
    | _ :: _ =>
        if Qle_bool size (maxSizeMB * 1048576) then None
        else Some ("File too large. Maximum size: " ++ nts maxSizeMB ++ "MB")
    end.
Proof.
  intros H. unfold validateFile. rewrite size_check.
  destruct acceptedTypes as [|ext rest]; [reflexivity|].
  replace (hasValidExtension (ext :: rest) (to_lower name)) with true.
  - simpl. destruct (Qle_bool size (maxSizeMB * 1048576)); reflexivity.
  - symmetry. unfold hasValidExtension. simpl existsb.
    apply orb_true_iff in H as [H|H]; rewrite H; rewrite ?orb_true_r; simpl; reflexivity.
Qed.

Lemma validateFile_compound_zst_witness :
  (ends_with (to_lower "TRACK.CSV.ZST") ".csv.zst" || ends_with (to_lower "TRACK.CSV.ZST") ".dat.zst") = true /\
  validateFile (fun _ => "1000") [".json"] 1000 "TRACK.CSV.ZST" 2048 = None.
Proof.
  split; [reflexivity|].
  rewrite (validateFile_compound_zst (fun _ => "1000") [".json"] 1000 "TRACK.CSV.ZST" 2048)
    by reflexivity.
  reflexivity.
Defined.

(** X8: accepted types that contain an upper-case letter never match,
    since only the file name is lower-cased: with only such types, every
    file not ending in .csv.zst or .dat.zst is rejected as unsupported. *)
Theorem validateFile_uppercase_types (nts : Q -> string) (acceptedTypes : list string)
    (maxSizeMB : Q) (name : string) (size : Q) :
  Forall (fun ext => has_upper ext = true) acceptedTypes ->
  ends_with (to_lower name) ".csv.zst" = false ->
  ends_with (to_lower name) ".dat.zst" = false ->
  validateFile nts acceptedTypes maxSizeMB name size =
    Some ("File type not supported. Accepted: " ++ String.concat ", " acceptedTypes).
Proof.
  intros Hup Hc Hd. unfold validateFile.
  replace (hasValidExtension acceptedTypes (to_lower name)) with false; [reflexivity|].
  symmetry. unfold hasValidExtension. apply not_true_iff_false. rewrite existsb_exists.
  intros (ext & Hin & Hext). rewrite Forall_forall in Hup.
  pose proof (Hup ext (proj2 (list_elem_of_In _ _) Hin)) as Hu.
  rewrite Hc, Hd, !orb_false_r in Hext. apply orb_true_iff in Hext as [He|He];
    apply ends_with_upper in He; try apply has_upper_to_lower.
  - congruence.
  - rewrite has_upper_app, Hu in He. discriminate.
Qed.

Lemma validateFile_uppercase_types_witness :
  Forall (fun ext => has_upper ext = true) [".CSV"] /\
  ends_with (to_lower "ais.csv") ".csv.zst" = false /\
  ends_with (to_lower "ais.csv") ".dat.zst" = false /\
  validateFile (fun _ => "1000") [".CSV"] 1000 "ais.csv" 1 =
    Some "File type not supported. Accepted: .CSV".
Proof.
  split; [repeat constructor|]. split; [reflexivity|]. split; [reflexivity|].
  apply (validateFile_uppercase_types (fun _ => "1000") [".CSV"] 1000 "ais.csv" 1);
    [repeat constructor|reflexivity|reflexivity].
Defined.

Lemma includes_empty (t : string) : includes "" t = true -> t = "".
Proof. intros (p & q & E)%includes_spec. destruct p, t; try discriminate. reflexivity. Qed.

Lemma includes_trans (a b c : string) :
  includes a b = true -> includes b c = true -> includes a c = true.
Proof.
  rewrite !includes_spec. intros (p & q & ->) (p' & q' & ->).
  exists (p ++ p')%string, (q' ++ q)%string.
  rewrite <- !str_app_assoc. reflexivity.
Qed.

Lemma filter_filter_implied {A} (p q : A -> bool) (l : list A) :
  (forall x, p x = true -> q x = true) ->
  List.filter p (List.filter q l) = List.filter p l.
Proof.
  intros Hpq. induction l as [|x l IH]; [reflexivity|]. simpl.
  destruct (q x) eqn:Hq; simpl.
  - destruct (p x); [f_equal|]; exact IH.
  - destruct (p x) eqn:Hp; [|exact IH]. rewrite (Hpq x Hp) in Hq. discriminate.
Qed.

(** X9: refining the MMSI search to a string that contains the old one
    only narrows the list: filtering the already filtered list gives the
    same result as filtering the full list. *)
Theorem filteredVessels_refine {V} (mmsi : V -> string) (searchMmsi searchMmsi' : string)
    (vessels : list V) :
  includes searchMmsi' searchMmsi = true ->
  filteredVessels mmsi searchMmsi' (filteredVessels mmsi searchMmsi vessels) =
  filteredVessels mmsi searchMmsi' vessels.
Proof.
  intros Hinc. unfold filteredVessels. apply filter_filter_implied. intros v.
  rewrite !orb_true_iff, !String.eqb_eq. intros [E|Hv].
  - subst. left. exact (includes_empty _ Hinc).
  - right. exact (includes_trans _ _ _ Hv Hinc).
Qed.

Lemma filteredVessels_refine_witness :
  includes "2470" "247" = true /\
  filteredVessels (fun m : string => m) "2470" (filteredVessels (fun m => m) "247" ["247000001"; "211000002"]) =
  filteredVessels (fun m => m) "2470" ["247000001"; "211000002"].
Proof.
  split; [reflexivity|]. apply (filteredVessels_refine (fun m => m) "247" "2470"). reflexivity.
Defined.


Lemma count_partition (alerts : list AlertView) :
  (length (List.filter (fun a => Qle_bool 70 (av_severity a)) alerts) +
  length (List.filter (fun a => Qle_bool 30 (av_severity a) && Qlt_bool (av_severity a) 70) alerts) +
  length (List.filter (fun a => Qlt_bool (av_severity a) 30) alerts) = length alerts)%nat.
Proof.
  induction alerts as [|a l IH]; [reflexivity|]. simpl.
  unfold Qlt_bool in *.
  destruct (Qle_bool 70 (av_severity a)) eqn:E70, (Qle_bool 30 (av_severity a)) eqn:E30;
    simpl; try lia.
  - exfalso. apply Qle_bool_iff in E70. rewrite <- not_true_iff_false, Qle_bool_iff in E30.
    apply E30. lra.
Qed.

Lemma level_filter (alerts : list AlertView) :
  List.filter (fun a => String.eqb (VesselDetails.getSeverityLevel (av_severity a)) "high") alerts =
    List.filter (fun a => Qle_bool 70 (av_severity a)) alerts /\
  List.filter (fun a => String.eqb (VesselDetails.getSeverityLevel (av_severity a)) "medium") alerts =
    List.filter (fun a => Qle_bool 30 (av_severity a) && Qlt_bool (av_severity a) 70) alerts /\
  List.filter (fun a => String.eqb (VesselDetails.getSeverityLevel (av_severity a)) "low") alerts =
    List.filter (fun a => Qlt_bool (av_severity a) 30) alerts.
Proof.
  induction alerts as [|a l (IH1 & IH2 & IH3)]; [repeat split|]. simpl.
  rewrite IH1, IH2, IH3. unfold VesselDetails.getSeverityLevel, Qlt_bool.
  destruct (Qle_bool 70 (av_severity a)) eqn:E70, (Qle_bool 30 (av_severity a)) eqn:E30;
    simpl; repeat split.
  exfalso. apply Qle_bool_iff in E70. rewrite <- not_true_iff_false, Qle_bool_iff in E30.
  apply E30. lra.
Qed.

(** X10: the high, medium and low counts of VesselDetails are the
    numbers of alerts that getSeverityLevel puts in each level, and they
    add up to the total. *)
Theorem alertStats_levels (inherited_text : string -> string) (alerts : list AlertView) :
  let st := alertStats inherited_text alerts in
  st_high st = length (List.filter (fun a =>
                 String.eqb (VesselDetails.getSeverityLevel (av_severity a)) "high") alerts) /\
  st_medium st = length (List.filter (fun a =>
                 String.eqb (VesselDetails.getSeverityLevel (av_severity a)) "medium") alerts) /\
  st_low st = length (List.filter (fun a =>
                 String.eqb (VesselDetails.getSeverityLevel (av_severity a)) "low") alerts) /\
  (st_high st + st_medium st + st_low st = st_total st)%nat.
Proof.
  destruct (level_filter alerts) as (H1 & H2 & H3). simpl.
  rewrite H1, H2, H3. split; [reflexivity|]. split; [reflexivity|]. split; [reflexivity|].
  apply count_partition.
Qed.

Lemma byType_fold (it : string -> string) (l : list AlertView) :
  Forall (fun a => av_type a ∉ object_prototype_names) l ->
  forall (acc : gmap string PropVal) (cnt : string -> nat),
  (forall t, acc !! t = if Nat.eqb (cnt t) 0 then None else Some (PNum (cnt t))) ->
  forall t, fold_left (byType_step it) l acc !! t =
    if Nat.eqb (cnt t + type_count t l) 0 then None else Some (PNum (cnt t + type_count t l)).
Proof.
  induction l as [|a l IH]; intros Hl acc cnt Hacc t.
  - simpl. rewrite Nat.add_0_r. apply Hacc.
  - inversion Hl as [|? ? Ha Hr]; subst. simpl.
    set (k := av_type a).
    set (cnt' := fun t => (cnt t + (if String.eqb k t then 1 else 0))%nat).
    assert (Ht : (cnt t + type_count t (a :: l) = cnt' t + type_count t l)%nat).
    { unfold cnt', type_count. simpl. fold k. destruct (String.eqb k t); simpl; lia. }
    rewrite Ht. apply (IH Hr). clear t Ht. intros t.
    assert (Hk : String.eqb k "__proto__" = false).
    { apply String.eqb_neq. intros E. apply Ha. fold k. rewrite E. vm_compute. right.
      repeat (apply list_elem_of_here || apply list_elem_of_further). }
    unfold byType_step. fold k. rewrite Hk. rewrite (Hacc k).
    assert (Hd : ~ k ∈ object_prototype_names) by exact Ha.
    unfold cnt'. destruct (String.eqb_spec k t) as [<-|Hne].
    + rewrite lookup_insert_eq. destruct (cnt k) as [|m] eqn:Ek; simpl.
      * destruct (decide (k ∈ object_prototype_names)); [contradiction|reflexivity].
      * destruct m; reflexivity.
    + rewrite lookup_insert_ne by exact Hne. rewrite Hacc. rewrite Nat.add_0_r. reflexivity.
Qed.

(** X11: when no alert type is the name of an [Object.prototype]
    property, byType has an entry exactly for the types that occur, and
    it holds the number of alerts of that type. *)
Theorem alertStats_byType (inherited_text : string -> string) (alerts : list AlertView) :
  Forall (fun a => av_type a ∉ object_prototype_names) alerts ->
  forall t, st_byType (alertStats inherited_text alerts) !! t =
    if Nat.eqb (type_count t alerts) 0 then None else Some (PNum (type_count t alerts)).
Proof.
  intros Hl t. simpl. unfold byType.
  rewrite (byType_fold inherited_text alerts Hl ∅ (fun _ => 0%nat)); [reflexivity|].
  intros t'. reflexivity.
Qed.

Lemma alertStats_byType_witness :
  Forall (fun a => av_type a ∉ object_prototype_names)
    [{| av_type := "TELEPORT"; av_severity := 80 |}; {| av_type := "TELEPORT"; av_severity := 40 |}] /\
  st_byType (alertStats (fun _ => "")
    [{| av_type := "TELEPORT"; av_severity := 80 |}; {| av_type := "TELEPORT"; av_severity := 40 |}])
    !! "TELEPORT" = Some (PNum 2).
Proof.
  assert (H : Forall (fun a => av_type a ∉ object_prototype_names)
    [{| av_type := "TELEPORT"; av_severity := 80 |}; {| av_type := "TELEPORT"; av_severity := 40 |}])
    by (apply (bool_decide_unpack _); vm_compute; reflexivity).
  split; [exact H|].
  rewrite (alertStats_byType (fun _ => "") _ H "TELEPORT"). reflexivity.
Defined.

Lemma fold_min_le (l : list Q) (x : Q) :
  (forall y, In y (x :: l) -> fold_left Qmin l x <= y) /\ In (fold_left Qmin l x) (x :: l).
Proof.
  revert x. induction l as [|z l IH]; intros x.
  - split; [intros y [<-|[]]; apply Qle_refl|left; reflexivity].
  - simpl. destruct (IH (Qmin x z)) as [H1 H2]. split.
    + intros y [<-|[<-|Hy]].
      * eapply Qle_trans; [apply H1; left; reflexivity|apply Q.le_min_l].
      * eapply Qle_trans; [apply H1; left; reflexivity|apply Q.le_min_r].
      * apply H1. right. exact Hy.
    + destruct H2 as [E|H2]; [|right; right; exact H2].
      rewrite <- E. unfold Qmin, GenericMinMax.gmin. destruct (x ?= z); [left|left|right; left]; reflexivity.
Qed.

Lemma fold_max_ge (l : list Q) (x : Q) :
  (forall y, In y (x :: l) -> y <= fold_left Qmax l x) /\ In (fold_left Qmax l x) (x :: l).
Proof.
  revert x. induction l as [|z l IH]; intros x.
  - split; [intros y [<-|[]]; apply Qle_refl|left; reflexivity].
  - simpl. destruct (IH (Qmax x z)) as [H1 H2]. split.
    + intros y [<-|[<-|Hy]].
      * eapply Qle_trans; [apply Q.le_max_l|apply H1; left; reflexivity].
      * eapply Qle_trans; [apply Q.le_max_r|apply H1; left; reflexivity].
      * apply H1. right. exact Hy.
    + destruct H2 as [E|H2]; [|right; right; exact H2].
      rewrite <- E. unfold Qmax, GenericMinMax.gmax. destruct (x ?= z); [left|right; left|left]; reflexivity.
Qed.

(** X12: MapBounds fits the map only to a non-empty list; the fitted box
    contains every point, and each of its four edges is attained by a
    point. *)
Theorem MapBounds_box (bounds : list (Q * Q)) :
  match MapBounds bounds with
  | None => bounds = []
  | Some ((minLat, minLon), (maxLat, maxLon)) =>
      (forall lat lon, In (lat, lon) bounds -> minLat <= lat <= maxLat /\ minLon <= lon <= maxLon) /\
      (exists lon, In (minLat, lon) bounds) /\ (exists lon, In (maxLat, lon) bounds) /\
      (exists lat, In (lat, minLon) bounds) /\ (exists lat, In (lat, maxLon) bounds)
  end.
Proof.
  unfold MapBounds. destruct bounds as [|[la lo] r]; [reflexivity|]. simpl.
  destruct (fold_min_le (map fst r) la) as [A1 A2], (fold_min_le (map snd r) lo) as [B1 B2],
    (fold_max_ge (map fst r) la) as [C1 C2], (fold_max_ge (map snd r) lo) as [D1 D2].
  assert (Fst : forall x, In x (la :: map fst r) -> exists y, In (x, y) ((la, lo) :: r)).
  { intros x [<-|Hx]; [exists lo; left; reflexivity|].
    apply in_map_iff in Hx as [[x' y] [<- Hy]]. exists y. right. exact Hy. }
  assert (Snd : forall y, In y (lo :: map snd r) -> exists x, In (x, y) ((la, lo) :: r)).
  { intros y [<-|Hy]; [exists la; left; reflexivity|].
    apply in_map_iff in Hy as [[x y'] [<- Hx]]. exists x. right. exact Hx. }
  split; [|split; [apply Fst, A2|split; [apply Fst, C2|split; [apply Snd, B2|apply Snd, D2]]]].
  intros x y Hin. change (la :: map fst r) with (map fst ((la, lo) :: r)) in A1, C1.
  change (lo :: map snd r) with (map snd ((la, lo) :: r)) in B1, D1.
  split; split;
    [apply A1|apply C1|apply B1|apply D1];
    apply in_map_iff; exists (x, y); split; solve [reflexivity|exact Hin].
Qed.







Lemma onboarding_fold_range (evs : list Event) (st : State) :
  (match st with Showing s => s < length step_titles | _ => True end)%nat ->
  (match fold_left step evs st with Showing s => s < length step_titles | _ => True end)%nat.
Proof.
  revert st. induction evs as [|e evs IH]; intros st Hst; [exact Hst|].
  simpl. apply IH. destruct st as [s| |]; [|exact I|exact I].
  destruct e; simpl; [unfold handleNext|unfold handlePrevious|exact I].
  - destruct (Nat.ltb_spec s (length step_titles - 1)); simpl in *; [lia|exact I].
  - destruct (Nat.ltb_spec 0 s); simpl in *; lia.
Qed.

(** X15: whatever the clicks, while the tour is shown its current step
    indexes one of the step titles. *)
Theorem onboarding_title_defined (evs : list Event) :
  match run evs with
  | Showing currentStep => exists title, nth_error step_titles currentStep = Some title
  | _ => True
  end.
Proof.
  pose proof (onboarding_fold_range evs (Showing 0) ltac:(simpl; lia)) as H.
  unfold run. destruct (fold_left step evs (Showing 0)) as [s| |]; [|exact I|exact I].
  destruct (nth_error step_titles s) as [t|] eqn:E; [exists t; reflexivity|].
  apply nth_error_None in E. lia.
Qed.

(** X16: from the start, n presses of Next show step n while n < 8; the
    eighth press completes the tour. *)
Theorem onboarding_next_presses (n : nat) :
  run (repeat Next n) = if Nat.ltb n (length step_titles) then Showing n else Completed.
Proof.
  unfold run.
  assert (G : forall k m, (k < 8)%nat ->
    fold_left step (repeat Next m) (Showing k) =
      if Nat.ltb (k + m) 8 then Showing (k + m) else Completed).
  { intros k m. revert k. induction m as [|m IH]; intros k Hk.
    - simpl. rewrite Nat.add_0_r. destruct (Nat.ltb_spec k 8); [reflexivity|lia].
    - cbn [repeat fold_left step]. unfold handleNext.
      change (length step_titles - 1)%nat with 7%nat.
      destruct (Nat.ltb_spec k 7).
      + rewrite IH by lia. replace (k + 1 + m)%nat with (k + S m)%nat by lia. reflexivity.
      + assert (k = 7)%nat as -> by lia.
        destruct (Nat.ltb_spec (7 + S m) 8); [lia|].
        clear. induction m; [reflexivity|]. exact IHm. }
  rewrite (G 0%nat n) by lia. reflexivity.
Qed.

Lemma substring_all (s : string) (n : nat) :
  (String.length s <= n)%nat -> String.substring 0 n s = s.
Proof.
  revert n. induction s as [|c s IH]; intros n Hn; [destruct n; reflexivity|].
  destruct n as [|n]; simpl in Hn; [lia|]. simpl. f_equal. apply IH. lia.
Qed.

Lemma substring_app (p r : string) (m : nat) :
  String.substring (String.length p) m (p ++ r) = String.substring 0 m r.
Proof. induction p as [|c p IH]; [reflexivity|]. exact IH. Qed.

Lemma replace_first_eq (pat rep s : string) :
  replace_first pat rep s =
  if String.prefix pat s then rep ++ String.substring (String.length pat) (String.length s) s
  else match s with
       | EmptyString => EmptyString
       | String c r => String c (replace_first pat rep r)
       end.
Proof. destruct s; reflexivity. Qed.

Lemma str_length_app (a b : string) :
  String.length (a ++ b) = (String.length a + String.length b)%nat.
Proof. induction a as [|c a IH]; [reflexivity|]. exact (f_equal S IH). Qed.

(** X17: the stream URL replaces the leading [http] of the API base URL
    by [ws] (so [http://] becomes [ws://] and [https://] becomes
    [wss://]) and appends [/v1/stream]. *)
Theorem stream_url_scheme (rest : string) :
  stream_url ("http" ++ rest) = "ws" ++ rest ++ "/v1/stream".
Proof.
  unfold stream_url. rewrite replace_first_eq.
  replace (String.prefix "http" ("http" ++ rest)) with true
    by (symmetry; apply prefix_spec; exists rest; reflexivity).
  rewrite substring_app, substring_all by (rewrite str_length_app; simpl; lia).
  rewrite str_app_assoc. reflexivity.
Qed.
